(** * Blood Sugar Tracker: time normalisation, range filter and analytics

    A shallow embedding of the core of [app.py]: the timestamp normaliser
    ([ensure_utc], [to_local]), the date/context mask that builds the [view]
    frame, and the metrics ([time_in_range], [est_a1c_from_eag], the average).

    Conventions of the embedding.
    - A pandas [Timestamp] is its 64-bit nanosecond [value] together with an
      optional zone tag, as pandas stores it: for a zone-aware timestamp
      [value] counts from the UTC epoch, for a naive one it counts the wall
      clock.  The int64 range of pandas is not modelled ([value] is a [Z]).
    - A [datetime.date] is its day number counted from 1970-01-01.
    - Python exceptions are values of a small error monad [exc].
    - A Python or NumPy float is a binary64 number: a finite double is the
      rational number it denotes and every operation rounds its exact
      result to the nearest double (module [Binary64]).  The module
      [Float64] replays the A1C computation on Rocq's primitive binary64
      numbers.  Integers stay below [2 ^ 53], where their conversion to
      binary64 is exact.
    - A glucose entry is an integer, as the form stores it
      ([int(glucose)]), or missing (a log or an upload without the value);
      the two thresholds are integers (integer [number_input]s).
    - The string parser of [pd.to_datetime] and the system zone behind
      [tz.tzlocal()] are library code outside the repository; they are
      Section variables. *)

From Stdlib Require Import ZArith QArith Qround Qabs Qpower Qreduction.
From Stdlib Require Import List String Bool Lia Lqa.
From Stdlib Require PrimFloat FloatOps SpecFloat Uint63.
Import ListNotations.

Open Scope Z_scope.

(** ** Exceptions *)

Module Exc.

Inductive exn : Type :=
| TypeError
| AttributeError
| ParserError.

Inductive exc (A : Type) : Type :=
| Ok (a : A)
| Raise (e : exn).

Arguments Ok {A} a.
Arguments Raise {A} e.

Definition bind {A B : Type} (m : exc A) (k : A -> exc B) : exc B :=
  match m with
  | Ok a => k a
  | Raise e => Raise e
  end.

(** [try: m except Exception: h] *)
Definition try_except {A : Type} (m : exc A) (h : exc A) : exc A :=
  match m with
  | Ok a => Ok a
  | Raise _ => h
  end.

(** [Series.apply(f)]: the elements are visited in order and the first
    exception aborts the call. *)
Fixpoint apply {A B : Type} (f : A -> exc B) (s : list A) : exc (list B) :=
  match s with
  | [] => Ok []
  | x :: s' =>
      bind (f x) (fun y => bind (apply f s') (fun ys => Ok (y :: ys)))
  end.

End Exc.

Import Exc.

Notation "x <- m ;; k" := (bind m (fun x => k))
  (at level 61, m at next level, right associativity).

(** ** Timestamps *)

Module Time.

Inductive tzinfo : Type :=
| UTC
| tzlocal
| tzoffset (ns : Z).

Record Timestamp : Type := mkTimestamp {
  value : Z;
  tz : option tzinfo
}.

(** One element of the [datetime] column: text that was not parsed on load,
    a [Timestamp], or a missing value ([NaT], [None], [NaN]). *)
Inductive cell : Type :=
| Str (s : string)
| TS (t : Timestamp)
| NaT.

Definition ns_per_day : Z := 86400 * 1000000000.

Definition isna (x : cell) : bool :=
  match x with
  | NaT => true
  | _ => false
  end.

Definition is_timestamp (x : cell) : bool :=
  match x with
  | TS _ => true
  | _ => false
  end.

(** The number of elements of a column that satisfy a test. *)
Definition count {A : Type} (p : A -> bool) (s : list A) : nat :=
  List.length (filter p s).

(** [getattr(x, "tzinfo", None)] *)
Definition tzinfo_of (x : cell) : option tzinfo :=
  match x with
  | TS t => tz t
  | _ => None
  end.

(** [Timestamp.tz_localize("UTC")]: a naive timestamp keeps its clock
    reading and receives the UTC tag; an aware one is refused. *)
Definition tz_localize_UTC (t : Timestamp) : exc Timestamp :=
  match tz t with
  | None => Ok (mkTimestamp (value t) (Some UTC))
  | Some _ => Raise TypeError
  end.

(** [Timestamp.tz_convert(z)]: the instant is kept, the tag replaced; a
    naive timestamp is refused. *)
Definition tz_convert (z : tzinfo) (t : Timestamp) : exc Timestamp :=
  match tz t with
  | None => Raise TypeError
  | Some _ => Ok (mkTimestamp (value t) (Some z))
  end.

(** The same two methods called on a column element; text has neither. *)
Definition cell_tz_localize_UTC (x : cell) : exc cell :=
  match x with
  | TS t => t' <- tz_localize_UTC t ;; Ok (TS t')
  | NaT => Ok NaT
  | Str _ => Raise AttributeError
  end.

Definition cell_tz_convert (z : tzinfo) (x : cell) : exc cell :=
  match x with
  | TS t => t' <- tz_convert z t ;; Ok (TS t')
  | NaT => Ok NaT
  | Str _ => Raise AttributeError
  end.

Section Normalizer.

(** The text parser of [pd.to_datetime]: [None] when no strategy applies. *)
Variable parse_str : string -> option Timestamp.

(** The texts [pd.to_datetime] reads as a missing value without complaint
    ("NaT", "nan", the empty text, ...); none of them parses to a
    timestamp, so [parse_str] gives [None] on them. *)
Variable null_text : string -> bool.

(** The offset from UTC, in nanoseconds, of the system zone at an instant. *)
Variable local_utcoffset : Z -> Z.

Definition utcoffset (z : option tzinfo) (v : Z) : Z :=
  match z with
  | None => 0
  | Some UTC => 0
  | Some tzlocal => local_utcoffset v
  | Some (tzoffset ns) => ns
  end.

(** The clock reading shown for a timestamp in its own zone. *)
Definition wall_clock (t : Timestamp) : Z :=
  value t + utcoffset (tz t) (value t).

(** [Timestamp.date()], as a day number. *)
Definition date (t : Timestamp) : Z := wall_clock t / ns_per_day.

(** [pd.to_datetime(x, errors="coerce")] on one element; [None] is [NaT]. *)
Definition to_datetime_coerce (x : cell) : option Timestamp :=
  match x with
  | Str s => parse_str s
  | TS t => Some t
  | NaT => None
  end.

(** [pd.to_datetime(x, utc=True)] on one element: a text that stands for a
    missing value gives [NaT], any other text that cannot be parsed
    raises. *)
Definition to_datetime_utc (x : cell) : exc cell :=
  match x with
  | NaT => Ok NaT
  | TS t =>
      match tz t with
      | None => t' <- tz_localize_UTC t ;; Ok (TS t')
      | Some _ => t' <- tz_convert UTC t ;; Ok (TS t')
      end
  | Str s =>
      match parse_str s with
      | None => if null_text s then Ok NaT else Raise ParserError
      | Some t =>
          match tz t with
          | None => t' <- tz_localize_UTC t ;; Ok (TS t')
          | Some _ => t' <- tz_convert UTC t ;; Ok (TS t')
          end
      end
  end.

(** The inner function [fix] of [ensure_utc]. *)
Definition ensure_utc_fix (x : cell) : exc cell :=
  match to_datetime_coerce x with
  | None => Ok NaT
  | Some t =>
      match tz t with
      | None => t' <- tz_localize_UTC t ;; Ok (TS t')
      | Some _ => t' <- tz_convert UTC t ;; Ok (TS t')
      end
  end.

Definition ensure_utc (s : list cell) : exc (list cell) :=
  apply ensure_utc_fix s.

(** The inner function [fix_ts] of [to_local]. *)
Definition fix_ts (x : cell) : exc cell :=
  if isna x then Ok x
  else
    try_except
      (x' <- match tzinfo_of x with
             | None => cell_tz_localize_UTC x
             | Some _ => cell_tz_convert UTC x
             end ;;
       cell_tz_convert tzlocal x')
      (x' <- to_datetime_utc x ;; cell_tz_convert tzlocal x').

Definition to_local (dt_series : list cell) : exc (list cell) :=
  apply fix_ts dt_series.

(** The timestamp the "Add reading" form stores: the date and time typed by
    the user, combined into a naive timestamp and localised to UTC. *)
Definition new_row_ts (date_in time_in : Z) : exc Timestamp :=
  let dt := mkTimestamp (date_in * ns_per_day + time_in) None in
  tz_localize_UTC dt.

(** *** Vocabulary for the statements *)

(** The value [ensure_utc] leaves in place of an element. *)
Definition canonical (x : cell) : cell :=
  match to_datetime_coerce x with
  | None => NaT
  | Some t => TS (mkTimestamp (value t) (Some UTC))
  end.

(** An element is well formed when [pd.to_datetime] can read it. *)
Definition well_formed (x : cell) : bool :=
  match to_datetime_coerce x with
  | Some _ => true
  | None => false
  end.

(** The calendar date of an instant in the system zone. *)
Definition local_date (t : Timestamp) : Z :=
  date (mkTimestamp (value t) (Some tzlocal)).

End Normalizer.

End Time.

Import Time.

(** ** The log frame and the range filter *)

Module Frame.

(** One row of the log; the columns of [COLUMNS]. *)
Record Reading : Type := mkReading {
  datetime : cell;
  glucose_mgdl : option Z;
  context : string;
  carbs_g : Q;
  insulin_units : Q;
  notes : string
}.

(** [df["datetime"] = col] *)
Fixpoint set_datetime (df : list Reading) (col : list cell) : list Reading :=
  match df, col with
  | r :: df', x :: col' =>
      mkReading x (glucose_mgdl r) (context r) (carbs_g r)
                (insulin_units r) (notes r)
      :: set_datetime df' col'
  | _, _ => []
  end.

(** Element-wise [&] of two boolean columns. *)
Fixpoint mask_and (a b : list bool) : list bool :=
  match a, b with
  | x :: a', y :: b' => (x && y) :: mask_and a' b'
  | _, _ => []
  end.

(** [df.loc[mask]]: the rows whose mask entry is true, in order. *)
Fixpoint loc {A : Type} (df : list A) (mask : list bool) : list A :=
  match df, mask with
  | r :: df', b :: mask' => if b then r :: loc df' mask' else loc df' mask'
  | _, _ => []
  end.

(** [col >= d] and [col <= d] on a column of dates; a missing date compares
    false. *)
Definition date_ge (col : list (option Z)) (d : Z) : list bool :=
  map (fun x => match x with Some v => d <=? v | None => false end) col.

Definition date_le (col : list (option Z)) (d : Z) : list bool :=
  map (fun x => match x with Some v => v <=? d | None => false end) col.

(** [col.isin(values)] *)
Definition isin (col : list string) (values : list string) : list bool :=
  map (fun c => existsb (String.eqb c) values) col.

Section View.

Variable parse_str : string -> option Timestamp.
Variable null_text : string -> bool.
Variable local_utcoffset : Z -> Z.

(** [col.dt.date]: only a column of timestamps has the [.dt] accessor. *)
Definition dt_date (col : list cell) : exc (list (option Z)) :=
  apply (fun x => match x with
                  | TS t => Ok (Some (date local_utcoffset t))
                  | NaT => Ok None
                  | Str _ => Raise AttributeError
                  end) col.

(** The frame after [df["datetime"] = ensure_utc(df["datetime"])]. *)
Definition normalized (df : list Reading) : exc (list Reading) :=
  col <- ensure_utc parse_str (map datetime df) ;;
  Ok (set_datetime df col).

(** The boolean [mask] over the normalised frame. *)
Definition mask (df : list Reading) (start_date end_date : Z)
                (ctx_filter : list string) : exc (list bool) :=
  d1 <- dt_date (map datetime df) ;;
  d2 <- dt_date (map datetime df) ;;
  let m := mask_and (date_ge d1 start_date) (date_le d2 end_date) in
  match ctx_filter with
  | [] => Ok m
  | _ :: _ => Ok (mask_and m (isin (map context df) ctx_filter))
  end.

(** The script's [view]: the filtered copy of the log. *)
Definition view (df : list Reading) (start_date end_date : Z)
                (ctx_filter : list string) : exc (list Reading) :=
  match df with
  | [] => Ok df
  | _ :: _ =>
      df' <- normalized df ;;
      m <- mask df' start_date end_date ctx_filter ;;
      Ok (loc df' m)
  end.

(** The view with its optional [local_dt] column. *)
Record ViewFrame : Type := mkViewFrame {
  rows : list Reading;
  local_dt : option (list cell)
}.

(** [if not view.empty: view["local_dt"] = to_local(view["datetime"])] *)
Definition add_local_dt (v : list Reading) : exc ViewFrame :=
  match v with
  | [] => Ok (mkViewFrame v None)
  | _ :: _ =>
      col <- to_local parse_str null_text (map datetime v) ;;
      Ok (mkViewFrame v (Some col))
  end.

(** *** Vocabulary for the statements *)

(** A row after normalisation of its timestamp. *)
Definition canonical_row (r : Reading) : Reading :=
  mkReading (canonical parse_str (datetime r)) (glucose_mgdl r) (context r)
            (carbs_g r) (insulin_units r) (notes r).

(** The date test of [mask] on one row: the calendar date the timestamp
    shows in its own zone lies in the window; a missing timestamp fails. *)
Definition in_window (start_date end_date : Z) (r : Reading) : bool :=
  match datetime r with
  | TS t =>
      (start_date <=? date local_utcoffset t)
      && (date local_utcoffset t <=? end_date)
  | _ => false
  end.

(** The entry of the date column for a row that holds no text. *)
Definition date_entry (r : Reading) : option Z :=
  match datetime r with
  | TS t => Some (date local_utcoffset t)
  | _ => None
  end.

(** The context test of [mask] on one row. *)
Definition context_passes (ctx_filter : list string) (r : Reading) : bool :=
  match ctx_filter with
  | [] => true
  | _ :: _ => existsb (String.eqb (context r)) ctx_filter
  end.

(** The inclusion test in the words of the specification: the calendar date
    of the timestamp in the viewer's zone lies in the window, and the
    context is allowed. *)
Definition spec_inclusion_test (start_date end_date : Z)
    (allowed_contexts : list string) (r : Reading) : bool :=
  match datetime r with
  | TS t =>
      (start_date <=? local_date local_utcoffset t)
      && (local_date local_utcoffset t <=? end_date)
      && context_passes allowed_contexts r
  | _ => false
  end.

End View.

End Frame.

Import Frame.

(** ** Binary64 numbers

    A finite double is the rational number it denotes; every operation
    returns the exact result rounded to the nearest double, ties to even,
    as IEEE 754 prescribes.  Infinities are not modelled: the magnitudes of
    this program stay far below the overflow threshold. *)

Module Binary64.

(** Round-half-to-even of a rational to an integer ([rint]). *)
Definition round_half_even (x : Q) : Z :=
  let f := Qfloor x in
  match Qcompare (x - inject_Z f) (1 # 2) with
  | Lt => f
  | Gt => f + 1
  | Eq => if Z.even f then f else f + 1
  end.

(** [floor (log2 q)] of a positive rational. *)
Definition ilog2 (q : Q) : Z :=
  if Qle_bool 1 q then Z.log2 (Qfloor q)
  else - Z.log2_up (Qceiling (/ q)).

(** The exponent of the unit in the last place at [q]: 53 significant bits,
    and no exponent below that of the subnormal numbers. *)
Definition ulp_exponent (q : Q) : Z :=
  Z.max (-1074) (ilog2 (Qabs q) - 52).

(** The double nearest to [q], ties to even. *)
Definition rn (q : Q) : Q :=
  let r := Qred q in
  match Qnum r with
  | 0 => 0%Q
  | _ =>
      let e := ulp_exponent r in
      Qred (inject_Z (round_half_even (r / (2 # 1) ^ e)) * (2 # 1) ^ e)
  end.

Inductive f64 : Type :=
| Fin (q : Q)
| NaN.

(** A decimal literal of the source. *)
Definition lit (q : Q) : f64 := Fin (rn q).

Definition add (x y : f64) : f64 :=
  match x, y with
  | Fin a, Fin b => Fin (rn (a + b))
  | _, _ => NaN
  end.

(** Division; every divisor of this program is a non-zero literal. *)
Definition div (x y : f64) : f64 :=
  match x, y with
  | Fin a, Fin b => if Qeq_bool b 0 then NaN else Fin (rn (a / b))
  | _, _ => NaN
  end.

(** [a / b] for two integers: both are below [2 ^ 53], which binary64 holds
    exactly, so the result is the exact quotient rounded once.  A zero
    divisor does not reach the two uses in this program. *)
Definition true_divide (a b : Z) : f64 :=
  if b =? 0 then NaN else Fin (rn (inject_Z a / inject_Z b)).

End Binary64.

Import Binary64.

(** ** Metrics *)

Module Analytics.

(** Python's [round(x, ndigits)] on a float: the exact value of the double
    is rounded to [ndigits] decimals, ties to even, and the decimal result
    is converted to the nearest double. *)
Definition round (x : f64) (ndigits : nat) : f64 :=
  match x with
  | Fin q =>
      let f := inject_Z (10 ^ Z.of_nat ndigits) in
      Fin (rn (inject_Z (round_half_even (q * f)) / f))
  | NaN => NaN
  end.

(** [round(x, decimals)] on a NumPy float64: [rint(x * 10 ** decimals)]
    divided by [10 ** decimals], each step in binary64. *)
Definition round_np (x : f64) (decimals : nat) : f64 :=
  match x with
  | Fin q =>
      let f := inject_Z (10 ^ Z.of_nat decimals) in
      Fin (rn (inject_Z (round_half_even (rn (q * f))) / f))
  | NaN => NaN
  end.

Definition est_a1c_from_eag (eag_mgdl : f64) : f64 :=
  round (div (add eag_mgdl (lit 46.7)) (lit 28.7)) 2.

(** [mask.sum()]: the number of true entries. *)
Fixpoint mask_sum (m : list bool) : Z :=
  match m with
  | [] => 0
  | b :: m' => (if b then 1 else 0) + mask_sum m'
  end.

(** [series >= k], [series <= k], [series < k], [series > k]: a missing
    value compares false. *)
Definition ge_scalar (series : list (option Z)) (k : Z) : list bool :=
  map (fun v => match v with Some x => k <=? x | None => false end) series.

Definition le_scalar (series : list (option Z)) (k : Z) : list bool :=
  map (fun v => match v with Some x => x <=? k | None => false end) series.

Definition lt_scalar (series : list (option Z)) (k : Z) : list bool :=
  map (fun v => match v with Some x => x <? k | None => false end) series.

Definition gt_scalar (series : list (option Z)) (k : Z) : list bool :=
  map (fun v => match v with Some x => k <? x | None => false end) series.

(** The three counts [in_range], [low_ct], [high_ct] of [time_in_range]. *)
Definition tir_counts (series : list (option Z)) (low high : Z)
  : Z * Z * Z :=
  let in_range :=
    mask_sum (mask_and (ge_scalar series low) (le_scalar series high)) in
  let low_ct := mask_sum (lt_scalar series low) in
  let high_ct := mask_sum (gt_scalar series high) in
  (in_range, low_ct, high_ct).

Definition time_in_range (series : list (option Z)) (low high : Z)
  : f64 * f64 * f64 :=
  if (List.length series =? 0)%nat then (Fin 0, Fin 0, Fin 0)
  else
    let total := Z.of_nat (List.length series) in
    let '(in_range, low_ct, high_ct) := tir_counts series low high in
    (round_np (true_divide (100 * in_range) total) 1,
     round_np (true_divide (100 * low_ct) total) 1,
     round_np (true_divide (100 * high_ct) total) 1).

(** [Series.mean()]: missing values are skipped; the sum of the values
    that are present is divided by their number, and the mean of no value
    is NaN. *)
Definition mean (series : list (option Z)) : f64 :=
  let mask := map (fun v => match v with Some _ => false | None => true end)
                  series in
  let count := Z.of_nat (List.length series) - mask_sum mask in
  let the_sum :=
    fold_right Z.add 0%Z
      (map (fun v => match v with Some x => x | None => 0 end) series) in
  if count =? 0 then NaN else true_divide the_sum count.

(** What the four metric tiles receive; [None] is the dash. *)
Record Metrics : Type := mkMetrics {
  readings : nat;
  avg : option f64;
  tir : option (f64 * f64 * f64);
  a1c : option f64
}.

(** The metrics block of the script. *)
Definition metrics (view : list Reading) (default_low default_high : Z)
  : Metrics :=
  match view with
  | [] => mkMetrics 0%nat None None None
  | _ :: _ =>
      let avg := mean (map glucose_mgdl view) in
      let t := time_in_range (map glucose_mgdl view)
                             default_low default_high in
      mkMetrics (List.length view) (Some avg) (Some t)
                (Some (est_a1c_from_eag avg))
  end.

(** *** Vocabulary for the statements *)


(** The three tests of [time_in_range] and the test for a value that is
    present, on one entry. *)
Definition is_in_range (low high : Z) (v : option Z) : bool :=
  match v with
  | Some x => (low <=? x) && (x <=? high)
  | None => false
  end.

Definition is_below (low : Z) (v : option Z) : bool :=
  match v with
  | Some x => x <? low
  | None => false
  end.

Definition is_above (high : Z) (v : option Z) : bool :=
  match v with
  | Some x => high <? x
  | None => false
  end.

Definition is_present (v : option Z) : bool :=
  match v with
  | Some _ => true
  | None => false
  end.

(** The exact value of a result, when it is a number. *)
Definition value_of (x : f64) : Q :=
  match x with
  | Fin q => q
  | NaN => 0
  end.

End Analytics.

Import Analytics.

(** ** The A1C estimate on primitive binary64 numbers

    The same function on Rocq's primitive floats, with Python's [round]: the
    exact value of the double is rounded to [ndigits] decimals, ties to
    even, and the decimal result is converted to the nearest double.  The
    conversions are exact while the scaled value stays below [2 ^ 53]. *)

Module Float64.

Import PrimFloat.

(** The rational a finite double denotes. *)
Definition exact (x : float) : option Q :=
  match FloatOps.Prim2SF x with
  | SpecFloat.S754_zero _ => Some 0%Q
  | SpecFloat.S754_finite s m e =>
      Some (inject_Z (if s then Z.neg m else Z.pos m) * (2 # 1) ^ e)%Q
  | _ => None
  end.

Definition of_Z (n : Z) : float :=
  match n with
  | Z0 => 0%float
  | Zpos _ => of_uint63 (Uint63.of_Z n)
  | Zneg p => (- of_uint63 (Uint63.of_Z (Zpos p)))%float
  end.

(** The double nearest to [n / 10 ^ digits]. *)
Definition decimal (n : Z) (digits : nat) : float :=
  (of_Z n / of_Z (10 ^ Z.of_nat digits))%float.

Definition round (x : float) (ndigits : nat) : float :=
  match exact x with
  | Some q =>
      decimal (round_half_even (q * inject_Z (10 ^ Z.of_nat ndigits)))
              ndigits
  | None => x
  end.

#[warnings="-inexact-float"]
Definition est_a1c_from_eag (eag_mgdl : float) : float :=
  round ((eag_mgdl + 46.7) / 28.7)%float 2.

End Float64.

(** ** Adding and importing readings *)

Module Log.

Section AddReading.

(** [str.strip()], a method of Python's strings. *)
Variable strip : string -> string.

(** The dictionary [new_row] of the "Add reading" form. *)
Definition new_row (date_in time_in glucose : Z) (context : string)
    (carbs insulin : Q) (notes : string) : exc Reading :=
  ts <- new_row_ts date_in time_in ;;
  Ok (mkReading (TS ts) (Some glucose) context carbs insulin (strip notes)).

(** The frame [df] of the script run in which the "Add reading" button is
    pressed, from the button on: the new row is appended; when building it
    raises, the exception is shown and the frame stays as it was.  Only
    this run is described: [load_data] is cached by [st.cache_data] and the
    cache is never cleared, so a later run starts again from the cached
    log, whatever [save_data] wrote. *)
Definition add_reading (df : list Reading) (date_in time_in glucose : Z)
    (context : string) (carbs insulin : Q) (notes : string)
  : exc (list Reading) :=
  try_except
    (row <- new_row date_in time_in glucose context carbs insulin notes ;;
     Ok (df ++ [row]))
    (Ok df).

End AddReading.

Section Merge.

(** The row equality of [drop_duplicates]: every column holds the same
    value, a missing value being the same as a missing value. *)
Variable same_row : Reading -> Reading -> bool.

(** [df.duplicated()] with [keep="first"]: a row is marked when a row that
    is the same stands before it. *)
Fixpoint duplicated (seen : list Reading) (df : list Reading) : list bool :=
  match df with
  | [] => []
  | r :: df' => existsb (same_row r) seen :: duplicated (r :: seen) df'
  end.

(** [df.drop_duplicates()], that is [df[~df.duplicated()]]. *)
Definition drop_duplicates (df : list Reading) : list Reading :=
  loc df (map negb (duplicated [] df)).

(** The frame [merged] of the import: the log followed by the uploaded
    rows, without duplicates. *)
Definition merged (df incoming : list Reading) : list Reading :=
  drop_duplicates (df ++ incoming).

(** *** Vocabulary for the statements *)

(** No row of the frame is the same as an earlier one. *)
Fixpoint all_distinct (df : list Reading) : bool :=
  match df with
  | [] => true
  | r :: df' => negb (existsb (same_row r) df') && all_distinct df'
  end.

End Merge.

(** Two elements of the [datetime] column hold the same value: the same
    text, or two timestamps of the same [value] that are both naive or both
    aware, or two missing values. *)
Definition cell_eqb (x y : cell) : bool :=
  match x, y with
  | Str a, Str b => String.eqb a b
  | TS a, TS b =>
      (value a =? value b)
      && match tz a, tz b with
         | None, None => true
         | Some _, Some _ => true
         | _, _ => false
         end
  | NaT, NaT => true
  | _, _ => false
  end.

(** Two glucose entries hold the same number, or are both missing. *)
Definition glucose_eqb (x y : option Z) : bool :=
  match x, y with
  | Some a, Some b => a =? b
  | None, None => true
  | _, _ => false
  end.

(** Two rows hold the same value in every column. *)
Definition row_eqb (a b : Reading) : bool :=
  cell_eqb (datetime a) (datetime b)
  && glucose_eqb (glucose_mgdl a) (glucose_mgdl b)
  && String.eqb (context a) (context b)
  && Qeq_bool (carbs_g a) (carbs_g b)
  && Qeq_bool (insulin_units a) (insulin_units b)
  && String.eqb (notes a) (notes b).

Section Projection.

Variable parse_str : string -> option Timestamp.
Variable null_text : string -> bool.

(** A text that [pd.to_datetime] can read neither as a timestamp nor as a
    missing value. *)
Definition unreadable_text (x : cell) : bool :=
  match x with
  | Str s => match parse_str s with
             | None => negb (null_text s)
             | Some _ => false
             end
  | _ => false
  end.

(** The value [to_local] leaves in place of an element it can read: the
    same instant tagged with the system zone. *)
Definition localized (x : cell) : cell :=
  match to_datetime_coerce parse_str x with
  | None => NaT
  | Some t => TS (mkTimestamp (value t) (Some tzlocal))
  end.

End Projection.

End Log.

Import Log.

(** * Properties *)

(** ** The error monad *)

Lemma apply_total {A B : Type} (f : A -> exc B) (g : A -> B) :
  (forall x, f x = Ok (g x)) -> forall s, apply f s = Ok (map g s).
Proof.
  intros Hf s. induction s as [|x s IH]; simpl.
  - reflexivity.
  - rewrite Hf, IH. reflexivity.
Qed.

Lemma apply_pointwise {A B : Type} (f : A -> exc B) (g : A -> B)
      (s : list A) :
  (forall x, In x s -> f x = Ok (g x)) -> apply f s = Ok (map g s).
Proof.
  induction s as [|x s IH]; simpl; intros Hf.
  - reflexivity.
  - rewrite (Hf x) by (left; reflexivity).
    rewrite IH by (intros y Hy; apply Hf; right; exact Hy).
    reflexivity.
Qed.

(** ** Counting *)

Lemma count_map {A B : Type} (p : B -> bool) (f : A -> B) (s : list A) :
  count p (map f s) = count (fun x => p (f x)) s.
Proof.
  unfold count. induction s as [|x s IH]; simpl; [reflexivity|].
  destruct (p (f x)); simpl; rewrite IH; reflexivity.
Qed.

Lemma count_ext {A : Type} (p q : A -> bool) (s : list A) :
  (forall x, p x = q x) -> count p s = count q s.
Proof.
  intros H. unfold count. induction s as [|x s IH]; simpl; [reflexivity|].
  rewrite H. destruct (q x); simpl; rewrite IH; reflexivity.
Qed.

(** ** The time normaliser *)

Section NormalizerFacts.

Variable parse_str : string -> option Timestamp.

Local Abbreviation canon := (canonical parse_str).

Lemma ensure_utc_fix_total (x : cell) :
  ensure_utc_fix parse_str x = Ok (canon x).
Proof.
  unfold ensure_utc_fix, canonical.
  destruct (to_datetime_coerce parse_str x) as [t|]; [|reflexivity].
  unfold tz_localize_UTC, tz_convert.
  destruct (tz t); reflexivity.
Qed.

Lemma ensure_utc_total (s : list cell) :
  ensure_utc parse_str s = Ok (map canon s).
Proof. apply apply_total, ensure_utc_fix_total. Qed.

Lemma canonical_shape (x : cell) :
  canon x = NaT \/
  exists t, canon x = TS t /\ tz t = Some UTC.
Proof.
  unfold canonical.
  destruct (to_datetime_coerce parse_str x) as [t|]; [right|left; reflexivity].
  eexists; split; reflexivity.
Qed.

Lemma canonical_fixed (t : Timestamp) :
  tz t = Some UTC -> canon (TS t) = TS t.
Proof.
  destruct t as [v z]; simpl; intros ->. reflexivity.
Qed.

Lemma canonical_idem (x : cell) : canon (canon x) = canon x.
Proof.
  destruct (canonical_shape x) as [E | (t & E & Ht)]; rewrite E.
  - reflexivity.
  - apply canonical_fixed, Ht.
Qed.

Lemma canonical_not_str (x : cell) (s : string) : canon x <> Str s.
Proof.
  destruct (canonical_shape x) as [E | (t & E & _)]; rewrite E; discriminate.
Qed.

Lemma is_timestamp_canonical (x : cell) :
  is_timestamp (canon x) = well_formed parse_str x.
Proof.
  unfold canonical, well_formed.
  destruct (to_datetime_coerce parse_str x); reflexivity.
Qed.

Lemma isna_canonical (x : cell) :
  isna (canon x) = negb (well_formed parse_str x).
Proof.
  unfold canonical, well_formed.
  destruct (to_datetime_coerce parse_str x); reflexivity.
Qed.

Lemma count_canonical (s : list cell) :
  count is_timestamp (map canon s) = count (well_formed parse_str) s
  /\ count isna (map canon s)
     = count (fun x => negb (well_formed parse_str x)) s.
Proof.
  split.
  - rewrite count_map. apply count_ext, is_timestamp_canonical.
  - rewrite count_map. apply count_ext, isna_canonical.
Qed.

End NormalizerFacts.

(** ** The range filter *)

Lemma loc_map_filter {A : Type} (p : A -> bool) (df : list A) :
  loc df (map p df) = filter p df.
Proof.
  induction df as [|r df IH]; simpl; [reflexivity|].
  destruct (p r); rewrite IH; reflexivity.
Qed.

Lemma mask_and_map {A : Type} (p q : A -> bool) (df : list A) :
  mask_and (map p df) (map q df) = map (fun r => p r && q r) df.
Proof.
  induction df as [|r df IH]; simpl; [reflexivity|].
  rewrite IH; reflexivity.
Qed.

Section FilterFacts.

Variable parse_str : string -> option Timestamp.
Variable local_utcoffset : Z -> Z.

Local Abbreviation canon_row := (canonical_row parse_str).
Local Abbreviation date_in := (in_window local_utcoffset).

Lemma set_datetime_canonical (df : list Reading) :
  set_datetime df (map (canonical parse_str) (map datetime df))
  = map canon_row df.
Proof.
  induction df as [|r df IH]; simpl; [reflexivity|].
  rewrite IH. reflexivity.
Qed.

Lemma normalized_total (df : list Reading) :
  normalized parse_str df = Ok (map canon_row df).
Proof.
  unfold normalized. rewrite ensure_utc_total. simpl.
  rewrite set_datetime_canonical. reflexivity.
Qed.

Lemma dt_date_canonical (df : list Reading) :
  dt_date local_utcoffset (map datetime (map canon_row df))
  = Ok (map (date_entry local_utcoffset) (map canon_row df)).
Proof.
  unfold dt_date.
  rewrite apply_pointwise
    with (g := fun x => match x with
                        | TS t => Some (date local_utcoffset t)
                        | _ => None
                        end).
  - rewrite map_map. reflexivity.
  - intros x Hx. apply in_map_iff in Hx. destruct Hx as (r & <- & Hr).
    apply in_map_iff in Hr. destruct Hr as (r0 & <- & _). simpl.
    destruct (canonical parse_str (datetime r0)) eqn:E; try reflexivity.
    exfalso. exact (canonical_not_str _ _ _ E).
Qed.

Lemma date_ge_le_entry (start_date end_date : Z) (rows : list Reading) :
  mask_and (date_ge (map (date_entry local_utcoffset) rows) start_date)
           (date_le (map (date_entry local_utcoffset) rows) end_date)
  = map (date_in start_date end_date) rows.
Proof.
  unfold date_ge, date_le. rewrite !map_map, mask_and_map.
  apply map_ext. intros r. unfold in_window, date_entry.
  destruct (datetime r); reflexivity.
Qed.

Lemma mask_canonical (df : list Reading) (start_date end_date : Z)
      (ctx_filter : list string) :
  mask local_utcoffset (map canon_row df) start_date end_date ctx_filter
  = Ok (map (fun r => date_in start_date end_date r
                      && context_passes ctx_filter r)
            (map canon_row df)).
Proof.
  unfold mask. rewrite dt_date_canonical. simpl.
  rewrite date_ge_le_entry.
  generalize (map canon_row df); intros rows.
  destruct ctx_filter as [|c ctx].
  - f_equal. apply map_ext. intros r. simpl. rewrite andb_true_r. reflexivity.
  - unfold isin. rewrite map_map, mask_and_map. reflexivity.
Qed.

(** The view is the normalised log filtered by the two tests of the mask. *)
Lemma view_filter (df : list Reading) (start_date end_date : Z)
      (ctx_filter : list string) :
  view parse_str local_utcoffset df start_date end_date ctx_filter
  = Ok (filter (fun r => date_in start_date end_date r
                         && context_passes ctx_filter r)
               (map canon_row df)).
Proof.
  destruct df as [|r0 df]; [reflexivity|].
  unfold view. rewrite normalized_total. cbn [bind].
  rewrite mask_canonical. cbn [bind].
  rewrite loc_map_filter. reflexivity.
Qed.

End FilterFacts.

Section ViewFacts.

Variable parse_str : string -> option Timestamp.
Variable null_text : string -> bool.
Variable local_utcoffset : Z -> Z.

Local Abbreviation canon_row := (canonical_row parse_str).

Lemma date_utc (t : Timestamp) :
  tz t = Some UTC -> date local_utcoffset t = value t / ns_per_day.
Proof.
  intros H. unfold date, wall_clock. rewrite H. simpl.
  rewrite Z.add_0_r. reflexivity.
Qed.

Lemma canonical_row_shape (r : Reading) :
  datetime (canon_row r) = NaT \/
  exists t, datetime (canon_row r) = TS t /\ tz t = Some UTC.
Proof. apply canonical_shape. Qed.

Lemma in_window_true (start_date end_date : Z) (r : Reading) :
  in_window local_utcoffset start_date end_date r = true <->
  exists t, datetime r = TS t /\
            start_date <= date local_utcoffset t <= end_date.
Proof.
  unfold in_window. destruct (datetime r) as [s|t|].
  - split; [discriminate|intros (t & E & _); discriminate].
  - rewrite andb_true_iff, !Z.leb_le. split.
    + intros [H1 H2]. exists t. repeat split; assumption.
    + intros (t' & E & H1 & H2). injection E as <-. split; assumption.
  - split; [discriminate|intros (t & E & _); discriminate].
Qed.

Lemma context_passes_true (ctx_filter : list string) (r : Reading) :
  context_passes ctx_filter r = true <->
  ctx_filter = [] \/ In (context r) ctx_filter.
Proof.
  unfold context_passes. destruct ctx_filter as [|c ctx].
  - split; [left|]; reflexivity.
  - rewrite existsb_exists. split.
    + intros (c' & Hin & Heq). apply String.eqb_eq in Heq. subst c'.
      right. exact Hin.
    + intros [H|H]; [discriminate|].
      exists (context r). split; [exact H|apply String.eqb_refl].
Qed.

Lemma in_window_empty (start_date end_date : Z) (r : Reading) :
  end_date < start_date ->
  in_window local_utcoffset start_date end_date r = false.
Proof.
  intros H. unfold in_window. destruct (datetime r); try reflexivity.
  apply andb_false_iff.
  destruct (Z.leb_spec start_date (date local_utcoffset t));
    [right; apply Z.leb_gt; lia | left; reflexivity].
Qed.

Lemma filter_none {A : Type} (p : A -> bool) (l : list A) :
  (forall x, p x = false) -> filter p l = [].
Proof.
  intros H. induction l as [|x l IH]; simpl; [reflexivity|].
  rewrite H. exact IH.
Qed.

Lemma count_mono {A : Type} (p q : A -> bool) (s : list A) :
  (forall x, p x = true -> q x = true) -> (count p s <= count q s)%nat.
Proof.
  intros H. unfold count. induction s as [|x s IH]; simpl; [lia|].
  destruct (p x) eqn:E.
  - rewrite (H x E). simpl. lia.
  - destruct (q x); simpl; lia.
Qed.

Lemma view_rows_have_timestamps (df : list Reading)
      (start_date end_date : Z) (ctx_filter : list string) (v : list Reading) :
  view parse_str local_utcoffset df start_date end_date ctx_filter = Ok v ->
  forall r, In r v -> exists t, datetime r = TS t /\ tz t = Some UTC.
Proof.
  rewrite view_filter. intros [= <-] r Hr.
  apply filter_In in Hr. destruct Hr as [Hin Hp].
  apply andb_true_iff in Hp. destruct Hp as [Hw _].
  apply in_window_true in Hw. destruct Hw as (t & E & _).
  apply in_map_iff in Hin. destruct Hin as (r0 & <- & _).
  destruct (canonical_row_shape r0) as [E' | (t' & E' & Ht')].
  - rewrite E' in E. discriminate.
  - exists t'. split; assumption.
Qed.

Lemma view_length_bound (df : list Reading)
      (start_date end_date : Z) (ctx_filter : list string) (v : list Reading) :
  view parse_str local_utcoffset df start_date end_date ctx_filter = Ok v ->
  (List.length v <= count (well_formed parse_str) (map datetime df))%nat.
Proof.
  rewrite view_filter. intros [= <-].
  change (List.length (filter ?p ?l)) with (count p l).
  rewrite (count_map (well_formed parse_str) datetime).
  rewrite count_map.
  apply count_mono. intros r Hp.
  apply andb_true_iff in Hp. destruct Hp as [Hw _].
  rewrite <- is_timestamp_canonical.
  unfold in_window in Hw. simpl in Hw.
  destruct (canonical parse_str (datetime r)); [discriminate|reflexivity|discriminate].
Qed.

Lemma fix_ts_timestamp (t : Timestamp) :
  fix_ts parse_str null_text (TS t) = Ok (TS (mkTimestamp (value t) (Some tzlocal))).
Proof.
  unfold fix_ts. simpl.
  unfold tz_localize_UTC, tz_convert.
  destruct (tz t); reflexivity.
Qed.

End ViewFacts.

(** ** Claims on the time normaliser and the range filter *)

(** C10. [ensure_utc] never raises and is idempotent: a second pass over its
    output changes nothing.  Every timestamp it returns carries the UTC tag;
    a naive value keeps its clock reading (it is tagged, not shifted), an
    aware value keeps its instant.  The timestamp stored by the "Add
    reading" form is already in this normal form. *)
Theorem ensure_utc_idempotent :
  forall (parse_str : string -> option Timestamp)
         (local_utcoffset : Z -> Z) (s : list cell),
  exists out,
    ensure_utc parse_str s = Ok out /\
    ensure_utc parse_str out = Ok out /\
    (forall t, In (TS t) out -> tz t = Some UTC) /\
    (forall t, tz t = None ->
       exists t', ensure_utc_fix parse_str (TS t) = Ok (TS t') /\
                  tz t' = Some UTC /\
                  wall_clock local_utcoffset t' = wall_clock local_utcoffset t) /\
    (forall t z, tz t = Some z ->
       exists t', ensure_utc_fix parse_str (TS t) = Ok (TS t') /\
                  tz t' = Some UTC /\ value t' = value t) /\
    (forall date_in time_in,
       exists ts, new_row_ts date_in time_in = Ok ts /\
                  ensure_utc_fix parse_str (TS ts) = Ok (TS ts)).
Proof.
  intros parse_str local_utcoffset s.
  exists (map (canonical parse_str) s). repeat split.
  - apply ensure_utc_total.
  - rewrite ensure_utc_total, map_map. f_equal.
    apply map_ext, canonical_idem.
  - intros t Hin. apply in_map_iff in Hin. destruct Hin as (x & E & _).
    destruct (canonical_shape parse_str x) as [E' | (t' & E' & Ht')];
      rewrite E' in E; [discriminate|].
    injection E as <-. exact Ht'.
  - intros t Ht. eexists. rewrite ensure_utc_fix_total.
    split; [reflexivity|]. split; [reflexivity|].
    unfold wall_clock. rewrite Ht. reflexivity.
  - intros t z Ht. eexists. rewrite ensure_utc_fix_total.
    repeat split; reflexivity.
  - intros date_in time_in. eexists. split; [reflexivity|].
    rewrite ensure_utc_fix_total. reflexivity.
Qed.

Lemma ensure_utc_idempotent_witness :
  exists out,
    ensure_utc (fun _ => None)
      [Str "n/a"; TS (mkTimestamp 3600 None);
       TS (mkTimestamp 7200 (Some (tzoffset 3600)))] = Ok out /\
    ensure_utc (fun _ => None) out = Ok out /\
    out = [NaT; TS (mkTimestamp 3600 (Some UTC));
           TS (mkTimestamp 7200 (Some UTC))].
Proof.
  destruct (ensure_utc_idempotent (fun _ => None) (fun _ => 0)
              [Str "n/a"; TS (mkTimestamp 3600 None);
               TS (mkTimestamp 7200 (Some (tzoffset 3600)))])
    as (out & H1 & H2 & _).
  exists out. split; [exact H1|]. split; [exact H2|].
  vm_compute in H1. injection H1 as <-. reflexivity.
Defined.

(** C5. A value that [pd.to_datetime] cannot read becomes [NaT] and nothing
    is raised.  On a log with N readable and M unreadable timestamps
    [ensure_utc] returns N timestamps and M [NaT]s.  No row without a
    timestamp reaches the view, whatever the window (the epoch day
    included), so the metrics never count it. *)
Theorem malformed_timestamps_are_dropped :
  forall (parse_str : string -> option Timestamp)
         (local_utcoffset : Z -> Z) (df : list Reading)
         (start_date end_date : Z) (ctx_filter : list string),
    (forall x, well_formed parse_str x = false ->
               ensure_utc_fix parse_str x = Ok NaT) /\
    (exists out,
       ensure_utc parse_str (map datetime df) = Ok out /\
       List.length out = List.length df /\
       count is_timestamp out
       = count (well_formed parse_str) (map datetime df) /\
       count isna out
       = count (fun x => negb (well_formed parse_str x)) (map datetime df)) /\
    (exists v,
       view parse_str local_utcoffset df start_date end_date ctx_filter
       = Ok v /\
       (forall r, In r v -> exists t, datetime r = TS t) /\
       (forall r0, well_formed parse_str (datetime r0) = false ->
                   ~ In (canonical_row parse_str r0) v) /\
       (List.length v
        <= count (well_formed parse_str) (map datetime df))%nat /\
       forall low high, readings (metrics v low high) = List.length v).
Proof.
  intros parse_str local_utcoffset df start_date end_date ctx_filter.
  split; [|split].
  - intros x Hx. rewrite ensure_utc_fix_total. unfold canonical.
    unfold well_formed in Hx.
    destruct (to_datetime_coerce parse_str x); [discriminate|reflexivity].
  - exists (map (canonical parse_str) (map datetime df)).
    split; [apply ensure_utc_total|].
    split; [rewrite !length_map; reflexivity|].
    apply count_canonical.
  - eexists. split; [apply view_filter|].
    pose proof (view_filter parse_str local_utcoffset df start_date end_date
                            ctx_filter) as Hv.
    split; [|split; [|split]].
    + intros r Hr.
      destruct (view_rows_have_timestamps _ _ _ _ _ _ _ Hv r Hr)
        as (t & E & _).
      exists t. exact E.
    + intros r0 Hbad Hin.
      destruct (view_rows_have_timestamps _ _ _ _ _ _ _ Hv _ Hin)
        as (t & E & _).
      simpl in E. unfold canonical in E. unfold well_formed in Hbad.
      destruct (to_datetime_coerce parse_str (datetime r0)); discriminate.
    + exact (view_length_bound _ _ _ _ _ _ _ Hv).
    + intros low high.
      destruct (filter _ _); reflexivity.
Qed.

Lemma malformed_timestamps_are_dropped_witness :
  let bad := mkReading (Str "yesterday") (Some 250) "other" 0 0 "" in
  let good := mkReading (TS (mkTimestamp 0 None)) (Some 100) "fasting" 0 0 "" in
  ensure_utc (fun _ => None) (map datetime [bad; good])
  = Ok [NaT; TS (mkTimestamp 0 (Some UTC))] /\
  view (fun _ => None) (fun _ => 0) [bad; good] 0 0 []
  = Ok [mkReading (TS (mkTimestamp 0 (Some UTC))) (Some 100) "fasting" 0 0 ""] /\
  ~ In (canonical_row (fun _ => None) bad)
       [mkReading (TS (mkTimestamp 0 (Some UTC))) (Some 100) "fasting" 0 0 ""].
Proof.
  intros bad good.
  destruct (malformed_timestamps_are_dropped
              (fun _ => None) (fun _ => 0) [bad; good] 0 0 [])
    as (_ & _ & v & Hv & _ & Hout & _).
  split; [reflexivity|]. split; [reflexivity|].
  vm_compute in Hv. injection Hv as <-.
  apply (Hout bad). reflexivity.
Defined.

(** C8. Round trip of the local projection.  For a canonical (UTC-tagged)
    timestamp, [to_local] returns the same instant tagged with the system
    zone, whose clock reading is shifted by the zone's offset, and
    converting that back to UTC gives the stored timestamp again.  Adding
    the [local_dt] column to a view succeeds, leaves the rows (and so the
    [datetime] column) as they were, and normalising the new column gives
    the [datetime] column back. *)
Theorem to_local_round_trip :
  forall (parse_str : string -> option Timestamp)
         (null_text : string -> bool)
         (local_utcoffset : Z -> Z) (r : Reading) (t : Timestamp),
    datetime r = TS t ->
    tz t = Some UTC ->
    (exists t',
       fix_ts parse_str null_text (datetime r) = Ok (TS t') /\
       tz t' = Some tzlocal /\
       wall_clock local_utcoffset t'
       = value t + local_utcoffset (value t) /\
       ensure_utc_fix parse_str (TS t') = Ok (datetime r)) /\
    (forall df start_date end_date ctx_filter v,
       view parse_str local_utcoffset df start_date end_date ctx_filter
       = Ok v ->
       exists col,
         add_local_dt parse_str null_text v
         = Ok (mkViewFrame v (match v with [] => None | _ => Some col end)) /\
         to_local parse_str null_text (map datetime v) = Ok col /\
         ensure_utc parse_str col = Ok (map datetime v)).
Proof.
  intros parse_str null_text local_utcoffset r t Hr Ht. split.
  - rewrite Hr, fix_ts_timestamp. eexists. split; [reflexivity|].
    split; [reflexivity|]. split; [reflexivity|].
    rewrite ensure_utc_fix_total. unfold canonical. simpl.
    destruct t as [v z]. simpl in *. subst z. reflexivity.
  - intros df start_date end_date ctx_filter v Hv.
    pose proof (view_rows_have_timestamps _ _ _ _ _ _ _ Hv) as Hrows.
    set (g := fun x => match x with
                       | TS u => TS (mkTimestamp (value u) (Some tzlocal))
                       | _ => x
                       end).
    assert (Hloc : to_local parse_str null_text (map datetime v)
                   = Ok (map g (map datetime v))).
    { apply apply_pointwise. intros x Hx.
      apply in_map_iff in Hx. destruct Hx as (r' & <- & Hin).
      destruct (Hrows r' Hin) as (u & E & _). rewrite E.
      apply fix_ts_timestamp. }
    exists (map g (map datetime v)). split; [|split].
    + unfold add_local_dt. destruct v; [reflexivity|].
      rewrite Hloc. reflexivity.
    + exact Hloc.
    + rewrite ensure_utc_total, !map_map.
      f_equal. apply map_ext_in. intros r' Hin.
      destruct (Hrows r' Hin) as ([v' z'] & E & Hz). rewrite E.
      simpl in Hz. subst z'. reflexivity.
Qed.

Lemma to_local_round_trip_witness :
  let t := mkTimestamp 1704151800000000000 (Some UTC) in
  let r := mkReading (TS t) (Some 120) "fasting" 0 0 "" in
  exists t',
    fix_ts (fun _ => None) (fun _ => false) (datetime r) = Ok (TS t') /\
    wall_clock (fun _ => 7200000000000) t' = 1704159000000000000 /\
    ensure_utc_fix (fun _ => None) (TS t') = Ok (TS t).
Proof.
  intros t r.
  destruct (to_local_round_trip (fun _ => None) (fun _ => false)
              (fun _ => 7200000000000)
              r t eq_refl eq_refl) as ((t' & H1 & _ & H3 & H4) & _).
  exists t'. split; [exact H1|]. split; [exact H3|exact H4].
Defined.

(** C7. When the window's start lies after its end the view is empty,
    whatever the log holds, and nothing is raised. *)
Theorem view_empty_when_start_after_end :
  forall (parse_str : string -> option Timestamp)
         (local_utcoffset : Z -> Z) (df : list Reading)
         (start_date end_date : Z) (ctx_filter : list string),
    end_date < start_date ->
    view parse_str local_utcoffset df start_date end_date ctx_filter = Ok [].
Proof.
  intros parse_str local_utcoffset df start_date end_date ctx_filter H.
  rewrite view_filter. f_equal. apply filter_none. intros r.
  rewrite in_window_empty by exact H. reflexivity.
Qed.

Lemma view_empty_when_start_after_end_witness :
  view (fun _ => None) (fun _ => 0)
       [mkReading (TS (mkTimestamp (19723 * ns_per_day) (Some UTC)))
                  (Some 120) "fasting" 0 0 "";
        mkReading (Str "2024-01-02 08:00") (Some 95) "bedtime" 0 0 ""]
       19724 19723 ["fasting"%string]
  = Ok [].
Proof.
  apply view_empty_when_start_after_end. reflexivity.
Defined.

(** C2, as the code has it.  The view holds, in the order of the log, the
    normalised rows whose timestamp is present and whose calendar date in
    UTC (the zone of the stored timestamp, not the viewer's zone) lies in
    the inclusive window, and whose context is in the allow-set when that
    set is not empty. *)
Theorem view_selects_by_utc_date :
  forall (parse_str : string -> option Timestamp)
         (local_utcoffset : Z -> Z) (df : list Reading)
         (start_date end_date : Z) (ctx_filter : list string),
  exists v,
    view parse_str local_utcoffset df start_date end_date ctx_filter = Ok v /\
    v = filter (fun r => in_window local_utcoffset start_date end_date r
                         && context_passes ctx_filter r)
               (map (canonical_row parse_str) df) /\
    forall r,
      In r v <->
      In r (map (canonical_row parse_str) df) /\
      (exists t, datetime r = TS t /\ tz t = Some UTC /\
                 start_date <= value t / ns_per_day <= end_date) /\
      (ctx_filter = [] \/ In (context r) ctx_filter).
Proof.
  intros parse_str local_utcoffset df start_date end_date ctx_filter.
  eexists. split; [apply view_filter|]. split; [reflexivity|].
  intros r. rewrite filter_In, andb_true_iff, in_window_true,
    context_passes_true.
  split.
  - intros (Hin & (t & E & Hd) & Hc). split; [exact Hin|]. split; [|exact Hc].
    apply in_map_iff in Hin. destruct Hin as (r0 & <- & _).
    destruct (canonical_row_shape parse_str r0) as [E' | (t' & E' & Ht')];
      rewrite E' in E; [discriminate|].
    injection E as <-. exists t'. split; [exact E'|]. split; [exact Ht'|].
    rewrite <- (date_utc local_utcoffset t' Ht'). exact Hd.
  - intros (Hin & (t & E & Ht & Hd) & Hc). split; [exact Hin|].
    split; [|exact Hc]. exists t. split; [exact E|].
    rewrite (date_utc local_utcoffset t Ht). exact Hd.
Qed.

Lemma view_selects_by_utc_date_witness :
  let r := mkReading (TS (mkTimestamp 1704151800000000000 (Some UTC)))
                     (Some 120) "fasting" 0 0 "" in
  exists v,
    view (fun _ => None) (fun _ => 7200000000000) [r] 19723 19723
         ["fasting"%string] = Ok v /\
    In r v.
Proof.
  intros r.
  destruct (view_selects_by_utc_date (fun _ => None) (fun _ => 7200000000000)
              [r] 19723 19723 ["fasting"%string]) as (v & Hv & _ & Hin).
  exists v. split; [exact Hv|].
  apply Hin. split; [left; reflexivity|]. split.
  - eexists. split; [reflexivity|]. split; [reflexivity|].
    vm_compute. split; discriminate.
  - right. left. reflexivity.
Defined.

(** C2, as the specification words it, fails.  A reading taken at 23:30 UTC
    on 2024-01-01 (day 19723) is shown on 2024-01-02 to a viewer two hours
    east of UTC.  With the window set to 2024-01-02 the specification's test
    on the local date accepts the reading while the view is empty; with the
    window set to 2024-01-01 the view holds the reading while the
    specification's test rejects it. *)
Lemma view_local_date_counterexample :
  let parse_str := fun _ : string => @None Timestamp in
  let local_utcoffset := fun _ : Z => 7200000000000 in
  let r := mkReading (TS (mkTimestamp 1704151800000000000 (Some UTC)))
                     (Some 120) "fasting" 0 0 "" in
  local_date local_utcoffset (mkTimestamp 1704151800000000000 (Some UTC))
  = 19724 /\
  spec_inclusion_test local_utcoffset 19724 19724 [] r = true /\
  view parse_str local_utcoffset [r] 19724 19724 [] = Ok [] /\
  spec_inclusion_test local_utcoffset 19723 19723 [] r = false /\
  view parse_str local_utcoffset [r] 19723 19723 [] = Ok [r] /\
  ~ (forall df start_date end_date ctx_filter v r',
       view parse_str local_utcoffset df start_date end_date ctx_filter
       = Ok v ->
       (In r' v <->
        In r' (map (canonical_row parse_str) df) /\
        spec_inclusion_test local_utcoffset start_date end_date
                            ctx_filter r' = true)).
Proof.
  intros parse_str local_utcoffset r.
  split; [reflexivity|]. split; [reflexivity|]. split; [reflexivity|].
  split; [reflexivity|]. split; [reflexivity|].
  intros H.
  specialize (H [r] 19724 19724 [] [] r eq_refl).
  destruct H as [_ H]. apply H. split; [left|]; reflexivity.
Qed.

(** ** Rounding to an integer *)

Lemma round_half_even_error (x : Q) :
  (- (1 # 2) <= inject_Z (round_half_even x) - x <= 1 # 2)%Q.
Proof.
  unfold round_half_even.
  pose proof (Qfloor_le x) as Hlo.
  pose proof (Qlt_floor x) as Hhi.
  rewrite inject_Z_plus in Hhi. change (inject_Z 1) with 1%Q in Hhi.
  destruct (Qcompare_spec (x - inject_Z (Qfloor x)) (1 # 2)) as [E|E|E].
  - destruct (Z.even (Qfloor x)).
    + split; lra.
    + rewrite inject_Z_plus. change (inject_Z 1) with 1%Q. split; lra.
  - split; lra.
  - rewrite inject_Z_plus. change (inject_Z 1) with 1%Q. split; lra.
Qed.

Lemma round_half_even_mono (x y : Q) :
  (x <= y)%Q -> round_half_even x <= round_half_even y.
Proof.
  intros Hxy.
  pose proof (Qfloor_le x) as Hx1. pose proof (Qlt_floor x) as Hx2.
  pose proof (Qfloor_le y) as Hy1. pose proof (Qlt_floor y) as Hy2.
  pose proof (Qfloor_resp_le x y Hxy) as Hf.
  rewrite inject_Z_plus in Hx2, Hy2.
  change (inject_Z 1) with 1%Q in Hx2, Hy2.
  unfold round_half_even.
  destruct (Z.eq_dec (Qfloor x) (Qfloor y)) as [E|N].
  - rewrite E in *.
    destruct (Qcompare_spec (x - inject_Z (Qfloor y)) (1 # 2)),
             (Qcompare_spec (y - inject_Z (Qfloor y)) (1 # 2)),
             (Z.even (Qfloor y)); try lia; exfalso; lra.
  - assert (Qfloor x + 1 <= Qfloor y) by lia.
    destruct (Qcompare (x - inject_Z (Qfloor x)) (1 # 2)),
             (Qcompare (y - inject_Z (Qfloor y)) (1 # 2)),
             (Z.even (Qfloor x)), (Z.even (Qfloor y)); lia.
Qed.

Lemma round_half_even_Z (z : Z) : round_half_even (inject_Z z) = z.
Proof.
  unfold round_half_even. rewrite Qfloor_Z.
  destruct (Qcompare_spec (inject_Z z - inject_Z z) (1 # 2));
    [exfalso; lra | reflexivity | exfalso; lra].
Qed.

(** ** Rounding to the nearest double *)

Lemma rn_proper (x y : Q) : (x == y)%Q -> rn x = rn y.
Proof.
  intros E. unfold rn. rewrite (Qred_complete x y E). reflexivity.
Qed.

Lemma pow2_pos (e : Z) : (0 < (2 # 1) ^ e)%Q.
Proof. apply Qpower_0_lt. reflexivity. Qed.

Lemma Qred_num_zero (q : Q) : Qnum (Qred q) = 0 -> (q == 0)%Q.
Proof.
  intros E. rewrite <- (Qred_correct q).
  unfold Qeq. rewrite E. reflexivity.
Qed.

Lemma rn_zero (q : Q) : Qnum (Qred q) = 0 -> rn q = 0%Q.
Proof. intros E. unfold rn. rewrite E. reflexivity. Qed.

Lemma rn_nonzero (q : Q) :
  Qnum (Qred q) <> 0 ->
  (rn q == inject_Z (round_half_even
                       (Qred q / (2 # 1) ^ ulp_exponent (Qred q)))
           * (2 # 1) ^ ulp_exponent (Qred q))%Q.
Proof.
  intros N. unfold rn.
  destruct (Qnum (Qred q)); [contradiction| |]; apply Qred_correct.
Qed.

(** The rounding error is at most half a unit in the last place. *)
Lemma rn_error_ulp (q : Q) :
  Qnum (Qred q) <> 0 ->
  (Qabs (rn q - q) <= (2 # 1) ^ ulp_exponent (Qred q) * (1 # 2))%Q.
Proof.
  intros N. rewrite (rn_nonzero q N).
  set (P := ((2 # 1) ^ ulp_exponent (Qred q))%Q).
  assert (HP : (0 < P)%Q) by apply pow2_pos.
  set (z := (Qred q / P)%Q).
  assert (Hz : (q == z * P)%Q).
  { unfold z. rewrite Qred_correct. field. lra. }
  pose proof (round_half_even_error z) as [L U].
  set (k := inject_Z (round_half_even z)) in *.
  apply Qabs_Qle_condition.
  assert (E : (k * P - q == (k - z) * P)%Q) by (rewrite Hz at 1; ring).
  rewrite E. split.
  - setoid_replace (- (P * (1 # 2)))%Q with ((- (1 # 2)) * P)%Q by ring.
    apply Qmult_le_compat_r; lra.
  - rewrite (Qmult_comm P). apply Qmult_le_compat_r; lra.
Qed.

Lemma ilog2_small (q : Q) : (q <= 2047)%Q -> ilog2 q <= 10.
Proof.
  intros H. unfold ilog2. destruct (Qle_bool 1 q) eqn:E.
  - apply Qle_bool_iff in E.
    pose proof (Qfloor_resp_le _ _ E) as L.
    pose proof (Qfloor_resp_le _ _ H) as U.
    change 1%Q with (inject_Z 1) in L.
    change 2047%Q with (inject_Z 2047) in U.
    rewrite Qfloor_Z in L, U.
    assert (Z.log2 (Qfloor q) < 11); [|lia].
    apply Z.log2_lt_pow2; [lia|]. change (2 ^ 11) with 2048. lia.
  - pose proof (Z.log2_up_nonneg (Qceiling (/ q))). lia.
Qed.

(** Up to 2047 in magnitude the rounding error is at most [2 ^ -43]. *)
Lemma rn_error_small (q : Q) :
  (Qabs q <= 2047)%Q -> (Qabs (rn q - q) <= 1 # 8796093022208)%Q.
Proof.
  intros H.
  destruct (Z.eq_dec (Qnum (Qred q)) 0) as [E|N].
  - rewrite (rn_zero q E). pose proof (Qred_num_zero q E) as Z0.
    rewrite Z0. discriminate.
  - pose proof (rn_error_ulp q N) as B.
    assert (He : ulp_exponent (Qred q) <= -42).
    { unfold ulp_exponent.
      assert (ilog2 (Qabs (Qred q)) <= 10).
      { apply ilog2_small. rewrite Qred_correct. exact H. }
      lia. }
    assert (HP : ((2 # 1) ^ ulp_exponent (Qred q) <= (2 # 1) ^ (-42))%Q).
    { apply Qpower_le_compat_l; [exact He|discriminate]. }
    assert (E42 : ((2 # 1) ^ (-42) == 1 # 4398046511104)%Q) by reflexivity.
    lra.
Qed.

Lemma rn_0 : rn 0 = 0%Q.
Proof. reflexivity. Qed.

Lemma rn_100 : rn 100 = 100%Q.
Proof. vm_compute. reflexivity. Qed.

(** ** Counting the three buckets *)

Lemma mask_sum_map {A : Type} (p : A -> bool) (s : list A) :
  mask_sum (map p s) = Z.of_nat (count p s).
Proof.
  unfold count. induction s as [|x s IH]; simpl; [reflexivity|].
  rewrite IH. destruct (p x); simpl List.length; lia.
Qed.

Lemma tir_counts_count (series : list (option Z)) (low high : Z) :
  tir_counts series low high
  = (Z.of_nat (count (is_in_range low high) series),
     Z.of_nat (count (is_below low) series),
     Z.of_nat (count (is_above high) series)).
Proof.
  unfold tir_counts, ge_scalar, le_scalar, lt_scalar, gt_scalar.
  rewrite mask_and_map, !mask_sum_map.
  repeat match goal with
         | |- (_, _) = (_, _) => apply f_equal2
         end;
    apply f_equal, count_ext; intros [x|]; reflexivity.
Qed.

Lemma count_cons {A : Type} (p : A -> bool) (x : A) (s : list A) :
  Z.of_nat (count p (x :: s))
  = (if p x then 1 else 0) + Z.of_nat (count p s).
Proof.
  unfold count. simpl. destruct (p x); simpl List.length; lia.
Qed.

Lemma bucket_once (low high : Z) (v : option Z) :
  low <= high ->
  (if is_in_range low high v then 1 else 0)
  + (if is_below low v then 1 else 0) + (if is_above high v then 1 else 0)
  = if is_present v then 1 else 0.
Proof.
  intros H. destruct v as [x|]; simpl; [|reflexivity].
  destruct (Z.leb_spec low x), (Z.leb_spec x high),
           (Z.ltb_spec x low), (Z.ltb_spec high x); simpl; lia.
Qed.

Lemma buckets_partition (series : list (option Z)) (low high : Z) :
  low <= high ->
  Z.of_nat (count (is_in_range low high) series)
  + Z.of_nat (count (is_below low) series)
  + Z.of_nat (count (is_above high) series)
  = Z.of_nat (count is_present series).
Proof.
  intros H. induction series as [|v s IH].
  - reflexivity.
  - rewrite !count_cons.
    pose proof (bucket_once low high v H). lia.
Qed.

Lemma count_bounds {A : Type} (p : A -> bool) (s : list A) :
  0 <= Z.of_nat (count p s) <= Z.of_nat (List.length s).
Proof.
  split; [lia|]. apply Nat2Z.inj_le. unfold count. apply filter_length_le.
Qed.

Lemma count_all {A : Type} (p : A -> bool) (s : list A) :
  (forall x, In x s -> p x = true) -> count p s = List.length s.
Proof.
  unfold count. induction s as [|x s IH]; intros H; [reflexivity|].
  simpl. rewrite (H x) by (left; reflexivity). simpl.
  rewrite IH by (intros y Hy; apply H; right; exact Hy). reflexivity.
Qed.

Lemma count_none {A : Type} (p : A -> bool) (s : list A) :
  (forall x, In x s -> p x = false) -> count p s = 0%nat.
Proof.
  unfold count. induction s as [|x s IH]; intros H; [reflexivity|].
  simpl. rewrite (H x) by (left; reflexivity).
  apply IH. intros y Hy. apply H. right. exact Hy.
Qed.

(** ** One percentage *)

(** The percentage returned for a count [c] out of [n] is the double
    nearest to a whole number [k] of tenths, and [k] is within a half
    (and a rounding error) of the exact number of tenths. *)
Lemma percentage_tenths (c n : Z) :
  0 <= c <= n -> 0 < n ->
  exists k,
    round_np (true_divide (100 * c) n) 1 = Fin (rn (inject_Z k / 10)) /\
    0 <= k <= 1000 /\
    (Qabs (inject_Z k - inject_Z (1000 * c) / inject_Z n)
     <= (1 # 2) + (1 # 1000000000))%Q.
Proof.
  intros Hc Hn.
  assert (Hq : (0 < inject_Z n)%Q).
  { change 0%Q with (inject_Z 0). rewrite <- Zlt_Qlt. exact Hn. }
  unfold true_divide. destruct (Z.eqb_spec n 0) as [E|_]; [lia|].
  set (t := (inject_Z (100 * c) / inject_Z n)%Q).
  assert (T0 : (0 <= t)%Q).
  { apply Qle_shift_div_l; [exact Hq|]. rewrite Qmult_0_l.
    change 0%Q with (inject_Z 0). rewrite <- Zle_Qle. lia. }
  assert (T1 : (t <= 100)%Q).
  { apply Qle_shift_div_r; [exact Hq|].
    change 100%Q with (inject_Z 100). rewrite <- inject_Z_mult, <- Zle_Qle.
    nia. }
  assert (Tt : (inject_Z (1000 * c) / inject_Z n == 10 * t)%Q).
  { unfold t. rewrite !inject_Z_mult.
    change (inject_Z 1000) with 1000%Q. change (inject_Z 100) with 100%Q.
    field. lra. }
  unfold round_np. change (inject_Z (10 ^ Z.of_nat 1)) with 10%Q.
  set (x := rn t).
  assert (Hx : (Qabs (x - t) <= 1 # 8796093022208)%Q).
  { apply rn_error_small. apply Qabs_Qle_condition. split; lra. }
  apply Qabs_Qle_condition in Hx. destruct Hx as [X1 X2].
  set (y := rn (x * 10)).
  assert (Hy : (Qabs (y - x * 10) <= 1 # 8796093022208)%Q).
  { apply rn_error_small. apply Qabs_Qle_condition. split; lra. }
  apply Qabs_Qle_condition in Hy. destruct Hy as [Y1 Y2].
  pose proof (round_half_even_error y) as [K1 K2].
  exists (round_half_even y). split; [reflexivity|].
  set (k := round_half_even y) in *.
  split.
  - assert (A : (inject_Z (-1) < inject_Z k)%Q)
      by (change (inject_Z (-1)) with (-1)%Q; lra).
    assert (B : (inject_Z k < inject_Z 1001)%Q)
      by (change (inject_Z 1001) with 1001%Q; lra).
    rewrite <- Zlt_Qlt in A, B. lia.
  - rewrite Tt. apply Qabs_Qle_condition. split; lra.
Qed.

(** ** The three percentages *)

Lemma time_in_range_nonempty (series : list (option Z)) (low high : Z) :
  series <> [] ->
  time_in_range series low high
  = let total := Z.of_nat (List.length series) in
    (round_np (true_divide
                 (100 * Z.of_nat (count (is_in_range low high) series))
                 total) 1,
     round_np (true_divide
                 (100 * Z.of_nat (count (is_below low) series)) total) 1,
     round_np (true_divide
                 (100 * Z.of_nat (count (is_above high) series)) total) 1).
Proof.
  intros Hne. unfold time_in_range.
  destruct series as [|v s]; [contradiction|].
  rewrite tir_counts_count. reflexivity.
Qed.

(** A returned percentage lies within [2 ^ -43] of its number of tenths. *)
Lemma tenths_double (k : Z) :
  0 <= k <= 1000 ->
  (Qabs (rn (inject_Z k / 10) - inject_Z k / 10) <= 1 # 8796093022208)%Q.
Proof.
  intros [L U]. apply rn_error_small.
  assert (A : (0 <= inject_Z k)%Q)
    by (change 0%Q with (inject_Z 0); rewrite <- Zle_Qle; exact L).
  assert (B : (inject_Z k <= 1000)%Q)
    by (change 1000%Q with (inject_Z 1000); rewrite <- Zle_Qle; exact U).
  apply Qabs_Qle_condition. unfold Qdiv. change (/ 10)%Q with (1 # 10)%Q.
  split; lra.
Qed.

(** The tenths of three counts that add up to the total add up to 999,
    1000 or 1001. *)
Lemma tenths_sum (ka kb kc ca cb cc n : Z) :
  0 < n -> ca + cb + cc = n ->
  (Qabs (inject_Z ka - inject_Z (1000 * ca) / inject_Z n)
   <= (1 # 2) + (1 # 1000000000))%Q ->
  (Qabs (inject_Z kb - inject_Z (1000 * cb) / inject_Z n)
   <= (1 # 2) + (1 # 1000000000))%Q ->
  (Qabs (inject_Z kc - inject_Z (1000 * cc) / inject_Z n)
   <= (1 # 2) + (1 # 1000000000))%Q ->
  (999 <= inject_Z ka + inject_Z kb + inject_Z kc <= 1001)%Q.
Proof.
  intros Hn Hsum Ha Hb Hc.
  assert (Hq : (0 < inject_Z n)%Q).
  { change 0%Q with (inject_Z 0). rewrite <- Zlt_Qlt. exact Hn. }
  assert (E : (inject_Z (1000 * ca) / inject_Z n
               + inject_Z (1000 * cb) / inject_Z n
               + inject_Z (1000 * cc) / inject_Z n == 1000)%Q).
  { rewrite !inject_Z_mult. change (inject_Z 1000) with 1000%Q.
    transitivity
      (1000 * (inject_Z ca + inject_Z cb + inject_Z cc) / inject_Z n)%Q.
    - field. lra.
    - rewrite <- !inject_Z_plus, Hsum. field. lra. }
  apply Qabs_Qle_condition in Ha, Hb, Hc.
  destruct Ha as [A1 A2], Hb as [B1 B2], Hc as [C1 C2].
  assert (L : (inject_Z 998 < inject_Z (ka + kb + kc))%Q).
  { rewrite !inject_Z_plus. change (inject_Z 998) with 998%Q. lra. }
  assert (U : (inject_Z (ka + kb + kc) < inject_Z 1002)%Q).
  { rewrite !inject_Z_plus. change (inject_Z 1002) with 1002%Q. lra. }
  rewrite <- Zlt_Qlt in L, U.
  assert (L' : 999 <= ka + kb + kc) by lia.
  assert (U' : ka + kb + kc <= 1001) by lia.
  rewrite Zle_Qle in L', U'. rewrite !inject_Z_plus in L', U'.
  change (inject_Z 999) with 999%Q in L'.
  change (inject_Z 1001) with 1001%Q in U'.
  split; assumption.
Qed.

(** ** Claims on the metrics *)

(** C3, as the code has it.  For a non-empty series in which no glucose
    value is missing and thresholds with [low <= high], the three results
    of [time_in_range] are the counts of the values in [[low, high]], below
    [low] and above [high], each taken as a percentage of the total and
    rounded to one decimal with NumPy's [round] on binary64; each returned
    double lies within 0.051 of the exact percentage, and their sum, exact
    or computed on binary64, lies within 0.3 (0.1 per component) of
    100. *)
Theorem time_in_range_percentages :
  forall (series : list (option Z)) (low high : Z),
    series <> [] ->
    (forall v, In v series -> is_present v = true) ->
    low <= high ->
    let total := Z.of_nat (List.length series) in
    let pct (p : option Z -> bool) :=
      round_np (true_divide (100 * Z.of_nat (count p series)) total) 1 in
    let exact_pct (p : option Z -> bool) :=
      (inject_Z (100 * Z.of_nat (count p series)) / inject_Z total)%Q in
    exists in_pct below_pct above_pct s : Q,
      time_in_range series low high
      = (Fin in_pct, Fin below_pct, Fin above_pct) /\
      pct (is_in_range low high) = Fin in_pct /\
      pct (is_below low) = Fin below_pct /\
      pct (is_above high) = Fin above_pct /\
      (Qabs (in_pct - exact_pct (is_in_range low high)) <= 51 # 1000)%Q /\
      (Qabs (below_pct - exact_pct (is_below low)) <= 51 # 1000)%Q /\
      (Qabs (above_pct - exact_pct (is_above high)) <= 51 # 1000)%Q /\
      (Qabs (in_pct + below_pct + above_pct - 100) <= 3 # 10)%Q /\
      add (add (Fin in_pct) (Fin below_pct)) (Fin above_pct) = Fin s /\
      (Qabs (s - 100) <= 3 # 10)%Q.
Proof.
  intros series low high Hne Hpres Hle total pct exact_pct.
  assert (Hn : 0 < total).
  { unfold total. destruct series; [contradiction|simpl List.length; lia]. }
  assert (Hq : (0 < inject_Z total)%Q).
  { change 0%Q with (inject_Z 0). rewrite <- Zlt_Qlt. exact Hn. }
  pose proof (buckets_partition series low high Hle) as Hsum.
  rewrite (count_all is_present series Hpres) in Hsum. fold total in Hsum.
  destruct (percentage_tenths
              (Z.of_nat (count (is_in_range low high) series)) total
              (count_bounds _ _) Hn) as (ka & Ea & Ka & Da).
  destruct (percentage_tenths
              (Z.of_nat (count (is_below low) series)) total
              (count_bounds _ _) Hn) as (kb & Eb & Kb & Db).
  destruct (percentage_tenths
              (Z.of_nat (count (is_above high) series)) total
              (count_bounds _ _) Hn) as (kc & Ec & Kc & Dc).
  pose proof (tenths_sum _ _ _ _ _ _ _ Hn Hsum Da Db Dc) as [S1 S2].
  pose proof (tenths_double ka Ka) as Pa.
  pose proof (tenths_double kb Kb) as Pb.
  pose proof (tenths_double kc Kc) as Pc.
  set (pa := rn (inject_Z ka / 10)) in *.
  set (pb := rn (inject_Z kb / 10)) in *.
  set (pc := rn (inject_Z kc / 10)) in *.
  apply Qabs_Qle_condition in Pa, Pb, Pc.
  destruct Pa as [Pa1 Pa2], Pb as [Pb1 Pb2], Pc as [Pc1 Pc2].
  unfold Qdiv in Pa1, Pa2, Pb1, Pb2, Pc1, Pc2.
  change (/ 10)%Q with (1 # 10)%Q in Pa1, Pa2, Pb1, Pb2, Pc1, Pc2.
  assert (Ra : (0 <= inject_Z ka <= 1000)%Q).
  { change 0%Q with (inject_Z 0). change 1000%Q with (inject_Z 1000).
    rewrite <- !Zle_Qle. exact Ka. }
  assert (Rb : (0 <= inject_Z kb <= 1000)%Q).
  { change 0%Q with (inject_Z 0). change 1000%Q with (inject_Z 1000).
    rewrite <- !Zle_Qle. exact Kb. }
  assert (Rc : (0 <= inject_Z kc <= 1000)%Q).
  { change 0%Q with (inject_Z 0). change 1000%Q with (inject_Z 1000).
    rewrite <- !Zle_Qle. exact Kc. }
  assert (H1 : (Qabs (rn (pa + pb) - (pa + pb)) <= 1 # 8796093022208)%Q).
  { apply rn_error_small. apply Qabs_Qle_condition. split; lra. }
  apply Qabs_Qle_condition in H1. destruct H1 as [H1a H1b].
  assert (H2 : (Qabs (rn (rn (pa + pb) + pc) - (rn (pa + pb) + pc))
                <= 1 # 8796093022208)%Q).
  { apply rn_error_small. apply Qabs_Qle_condition. split; lra. }
  apply Qabs_Qle_condition in H2. destruct H2 as [H2a H2b].
  exists pa, pb, pc, (rn (rn (pa + pb) + pc)).
  split; [rewrite time_in_range_nonempty by exact Hne; cbv zeta;
          fold total; rewrite Ea, Eb, Ec; reflexivity|].
  split; [exact Ea|]. split; [exact Eb|]. split; [exact Ec|].
  assert (T : forall c k : Z,
             (Qabs (inject_Z k - inject_Z (1000 * c) / inject_Z total)
              <= (1 # 2) + (1 # 1000000000))%Q ->
             (Qabs (rn (inject_Z k / 10) - inject_Z k / 10)
              <= 1 # 8796093022208)%Q ->
             (Qabs (rn (inject_Z k / 10)
                    - inject_Z (100 * c) / inject_Z total) <= 51 # 1000)%Q).
  { intros c k D P.
    assert (E : (inject_Z (1000 * c) / inject_Z total
                 == 10 * (inject_Z (100 * c) / inject_Z total))%Q).
    { rewrite !inject_Z_mult. change (inject_Z 1000) with 1000%Q.
      change (inject_Z 100) with 100%Q. field. lra. }
    rewrite E in D. clear E.
    set (t := (inject_Z (100 * c) / inject_Z total)%Q) in *.
    set (r := rn (inject_Z k / 10)) in *.
    apply Qabs_Qle_condition in D, P. apply Qabs_Qle_condition.
    unfold Qdiv in P. change (/ 10)%Q with (1 # 10)%Q in P.
    split; lra. }
  split; [apply T; [exact Da|apply tenths_double, Ka]|].
  split; [apply T; [exact Db|apply tenths_double, Kb]|].
  split; [apply T; [exact Dc|apply tenths_double, Kc]|].
  split; [apply Qabs_Qle_condition; split; lra|].
  split; [reflexivity|].
  apply Qabs_Qle_condition; split; lra.
Qed.

Lemma time_in_range_percentages_witness :
  exists in_pct below_pct above_pct s : Q,
    time_in_range [Some 100; Some 50; Some 200] 70 180
    = (Fin in_pct, Fin below_pct, Fin above_pct) /\
    in_pct = rn 33.3 /\ below_pct = rn 33.3 /\ above_pct = rn 33.3 /\
    add (add (Fin in_pct) (Fin below_pct)) (Fin above_pct) = Fin s /\
    (Qabs (s - 100) <= 3 # 10)%Q /\ ~ (Qabs (s - 100) <= 1 # 10)%Q.
Proof.
  destruct (time_in_range_percentages [Some 100; Some 50; Some 200] 70 180)
    as (a & b & c & s & E & _ & _ & _ & _ & _ & _ & _ & Es & Hs).
  - discriminate.
  - intros v [<-|[<-|[<-|[]]]]; reflexivity.
  - discriminate.
  - exists a, b, c, s.
    vm_compute in E. injection E as <- <- <-.
    split; [reflexivity|].
    split; [vm_compute; reflexivity|].
    split; [vm_compute; reflexivity|].
    split; [vm_compute; reflexivity|].
    split; [exact Es|]. split; [exact Hs|].
    vm_compute in Es. injection Es as <-.
    intros H. vm_compute in H. apply H. reflexivity.
Defined.

(** C3, as the specification words it, fails in two ways.  With
    [low > high], which the two threshold inputs allow (low up to 200, high
    down to 90), a single reading of 100 is counted below and above: the
    result is (0, 100, 100), whose sum is 200.  With a missing glucose
    value, which a log read from a file without the value holds, the
    reading is counted in the total and in no bucket: one reading of 100
    and one missing give (50, 0, 0), whose sum is 50. *)
Lemma time_in_range_sum_counterexample :
  time_in_range [Some 100] 200 90 = (Fin 0, Fin 100, Fin 100) /\
  ~ (Qabs (0 + 100 + 100 - 100) <= 3 # 10)%Q /\
  time_in_range [Some 100; None] 70 180 = (Fin 50, Fin 0, Fin 0) /\
  ~ (Qabs (50 + 0 + 0 - 100) <= 3 # 10)%Q /\
  ~ (forall series low high,
       series <> [] ->
       exists a b c : Q,
         time_in_range series low high = (Fin a, Fin b, Fin c) /\
         (Qabs (a + b + c - 100) <= 3 # 10)%Q).
Proof.
  split; [vm_compute; reflexivity|]. split.
  { intros H. vm_compute in H. apply H. reflexivity. }
  split; [vm_compute; reflexivity|]. split.
  { intros H. vm_compute in H. apply H. reflexivity. }
  intros H.
  destruct (H [Some 100] 200 90) as (a & b & c & E & B); [discriminate|].
  vm_compute in E. injection E as <- <- <-.
  vm_compute in B. apply B. reflexivity.
Qed.

(** C4. On the empty series [time_in_range] returns (0.0, 0.0, 0.0) for
    every pair of thresholds; being a total function it raises nothing. *)
Theorem time_in_range_empty :
  forall low high : Z, time_in_range [] low high = (Fin 0, Fin 0, Fin 0).
Proof. intros low high. reflexivity. Qed.

(** C9, as the code has it.  With [low <= high] every glucose value that
    is present falls in exactly one of the three buckets, so the three
    counts of [time_in_range] add up to the number of values present, which
    is the length of the series when no value is missing.  The hypothesis
    [low <= high] is needed: with [high < v < low] the value [v] is counted
    both below and above, and not in range. *)
Theorem tir_counts_partition :
  (forall (series : list (option Z)) (low high : Z),
     low <= high ->
     let '(in_range, low_ct, high_ct) := tir_counts series low high in
     in_range + low_ct + high_ct = Z.of_nat (count is_present series)) /\
  (forall (series : list (option Z)) (low high : Z),
     low <= high ->
     (forall v, In v series -> is_present v = true) ->
     let '(in_range, low_ct, high_ct) := tir_counts series low high in
     in_range + low_ct + high_ct = Z.of_nat (List.length series)) /\
  (forall low high v : Z,
     low <= high ->
     (if (low <=? v) && (v <=? high) then 1 else 0)
     + (if v <? low then 1 else 0) + (if high <? v then 1 else 0) = 1) /\
  (forall low high v : Z,
     high < v < low -> tir_counts [Some v] low high = (0, 1, 1)).
Proof.
  split; [|split; [|split]].
  - intros series low high H. rewrite tir_counts_count.
    apply buckets_partition, H.
  - intros series low high H Hp. rewrite tir_counts_count.
    rewrite <- (count_all is_present series Hp).
    apply buckets_partition, H.
  - intros low high v H. exact (bucket_once low high (Some v) H).
  - intros low high v [H1 H2]. unfold tir_counts. simpl.
    destruct (Z.leb_spec low v); [lia|].
    destruct (Z.ltb_spec v low); [|lia].
    destruct (Z.ltb_spec high v); [|lia].
    reflexivity.
Qed.

Lemma tir_counts_partition_witness :
  tir_counts [Some 100; Some 90; Some 200; Some 250; Some 65] 70 180
  = (2, 1, 2)
  /\ 2 + 1 + 2
     = Z.of_nat (List.length [Some 100; Some 90; Some 200; Some 250; Some 65])
  /\ tir_counts [Some 100] 200 90 = (0, 1, 1).
Proof.
  destruct tir_counts_partition as (_ & Hsum & _ & Hboth).
  split; [reflexivity|]. split.
  - apply (Hsum [Some 100; Some 90; Some 200; Some 250; Some 65] 70 180).
    + discriminate.
    + intros v [<-|[<-|[<-|[<-|[<-|[]]]]]]; reflexivity.
  - apply (Hboth 200 90 100). split; reflexivity.
Defined.

(** C9, as the specification words it, fails on a series with a missing
    glucose value: the entry is counted by [len] and falls in no bucket.
    For one reading of 100 and one missing value, with low 70 and high 180,
    the counts are (1, 0, 0) and the length is 2. *)
Lemma tir_counts_missing_counterexample :
  tir_counts [Some 100; None] 70 180 = (1, 0, 0) /\
  1 + 0 + 0 <> Z.of_nat (List.length [Some 100; @None Z]) /\
  ~ (forall (series : list (option Z)) (low high : Z),
       series <> [] -> low <= high ->
       let '(in_range, low_ct, high_ct) := tir_counts series low high in
       in_range + low_ct + high_ct = Z.of_nat (List.length series)).
Proof.
  split; [reflexivity|]. split; [discriminate|].
  intros H. specialize (H [Some 100; None] 70 180).
  assert (Hne : [Some 100; @None Z] <> []) by discriminate.
  assert (Hle : 70 <= 180) by discriminate.
  specialize (H Hne Hle). discriminate H.
Qed.

(** ** The average *)








(** ** The A1C estimate *)

(** For a mean between 0 and 1000 the estimate is the double nearest to a
    whole number [k] of hundredths, and [k / 100] is within 0.005 (and a
    rounding error) of [(eag + 46.7) / 28.7]. *)
Lemma est_a1c_hundredths (eag : Q) :
  (0 <= eag <= 1000)%Q ->
  exists k : Z,
    est_a1c_from_eag (Fin eag) = Fin (rn (inject_Z k / 100)) /\
    0 <= k <= 4000 /\
    (Qabs (inject_Z k / 100 - (eag + 46.7) / 28.7)
     <= (1 # 200) + (1 # 1000000000))%Q.
Proof.
  intros [L U].
  unfold est_a1c_from_eag, lit, add, div, round.
  let v := eval vm_compute in (rn 46.7) in
  assert (E1 : rn 46.7 = v) by (vm_compute; reflexivity).
  let v := eval vm_compute in (rn 28.7) in
  assert (E2 : rn 28.7 = v) by (vm_compute; reflexivity).
  rewrite E1, E2. clear E1 E2.
  match goal with
  | |- context [Qeq_bool ?c 0] =>
      change (Qeq_bool c 0) with false; cbv iota
  end.
  change (inject_Z (10 ^ Z.of_nat 2)) with 100%Q.
  match goal with
  | |- context [rn (eag + ?c)] => set (c1 := c); set (s := rn (eag + c1))
  end.
  assert (Hs : (Qabs (s - (eag + c1)) <= 1 # 8796093022208)%Q).
  { apply rn_error_small. apply Qabs_Qle_condition. unfold c1. split; lra. }
  apply Qabs_Qle_condition in Hs. destruct Hs as [S1 S2].
  match goal with
  | |- context [rn (s / ?c)] =>
      let iv := eval vm_compute in (/ c)%Q in
      assert (E : (/ c)%Q = iv) by reflexivity;
      set (d := rn (s / c)); set (c2 := iv) in *
  end.
  assert (Hd : (Qabs (d - s * c2) <= 1 # 8796093022208)%Q).
  { unfold d, Qdiv. rewrite E. apply rn_error_small.
    apply Qabs_Qle_condition. unfold c1 in S1, S2. unfold c2.
    split; lra. }
  clear E. apply Qabs_Qle_condition in Hd. destruct Hd as [D1 D2].
  pose proof (round_half_even_error (d * 100)) as [K1 K2].
  exists (round_half_even (d * 100)). split; [reflexivity|].
  set (k := round_half_even (d * 100)) in *.
  unfold c1 in S1, S2. unfold c2 in D1, D2.
  split.
  - assert (A : (inject_Z (-1) < inject_Z k)%Q)
      by (change (inject_Z (-1)) with (-1)%Q; lra).
    assert (B : (inject_Z k < inject_Z 4001)%Q)
      by (change (inject_Z 4001) with 4001%Q; lra).
    rewrite <- Zlt_Qlt in A, B. lia.
  - apply Qabs_Qle_condition. unfold Qdiv.
    change (/ 100)%Q with (1 # 100)%Q. change (/ 28.7)%Q with (10 # 287)%Q.
    split; lra.
Qed.

(** C1, as the code has it.  For a mean between 0 and 1000 mg/dL
    [est_a1c_from_eag] returns the double nearest to a whole number of
    hundredths that lies within 0.005 (and a binary64 rounding error below
    one billionth) of [(eag + 46.7) / 28.7].  At a mean of 154 the quotient
    is 6.993..., so the estimate is 6.99; the estimate 7.0 belongs to a
    mean of 154.2, and a mean of 160 gives 7.2.  The replay on Rocq's
    primitive binary64 numbers returns the same double at 154. *)
Theorem est_a1c_from_eag_relation :
  (forall eag : Q,
     (0 <= eag <= 1000)%Q ->
     exists k : Z,
       est_a1c_from_eag (Fin eag) = Fin (rn (inject_Z k / 100)) /\
       (Qabs (inject_Z k / 100 - (eag + 46.7) / 28.7)
        <= (1 # 200) + (1 # 1000000000))%Q) /\
  est_a1c_from_eag (Fin 154) = lit 6.99 /\
  est_a1c_from_eag (lit 154.2) = lit 7.0 /\
  est_a1c_from_eag (Fin 160) = lit 7.2 /\
  Float64.est_a1c_from_eag (Float64.of_Z 154) = Float64.decimal 699 2 /\
  match Float64.exact (Float64.est_a1c_from_eag (Float64.of_Z 154)) with
  | Some q => (q == rn 6.99)%Q
  | None => False
  end.
Proof.
  split.
  - intros eag H. destruct (est_a1c_hundredths eag H) as (k & E & _ & B).
    exists k. split; assumption.
  - split; [|split; [|split; [|split]]]; vm_compute; reflexivity.
Qed.

Lemma est_a1c_from_eag_relation_witness :
  exists k : Z,
    est_a1c_from_eag (Fin 502.1875) = Fin (rn (inject_Z k / 100)) /\
    (Qabs (inject_Z k / 100 - (502.1875 + 46.7) / 28.7)
     <= (1 # 200) + (1 # 1000000000))%Q /\
    est_a1c_from_eag (Fin 502.1875) = lit 19.13.
Proof.
  destruct est_a1c_from_eag_relation as [H _].
  destruct (H 502.1875%Q) as (k & E & B); [split; discriminate|].
  exists k. split; [exact E|]. split; [exact B|].
  vm_compute. reflexivity.
Defined.

(** C1, as the specification words it, fails: the estimate at a mean of
    154.0 is the double 6.99 and not 7.0, in the model and in the replay on
    primitive binary64 numbers. *)
Lemma est_a1c_154_counterexample :
  est_a1c_from_eag (Fin 154) = lit 6.99 /\
  ~ (value_of (est_a1c_from_eag (Fin 154)) == 7)%Q /\
  PrimFloat.eqb (Float64.est_a1c_from_eag (Float64.of_Z 154))
                (Float64.of_Z 7) = false.
Proof.
  split; [vm_compute; reflexivity|]. split.
  - intros H. vm_compute in H. discriminate H.
  - vm_compute. reflexivity.
Qed.

(** * Further properties *)

(** ** The local projection *)

Section ProjectionFacts.

Variable parse_str : string -> option Timestamp.
Variable null_text : string -> bool.

Lemma fix_ts_readable (x : cell) :
  unreadable_text parse_str null_text x = false ->
  fix_ts parse_str null_text x = Ok (localized parse_str x).
Proof.
  destruct x as [s|t|]; simpl.
  - unfold fix_ts, localized. simpl.
    destruct (parse_str s) as [t|].
    + intros _. unfold tz_localize_UTC, tz_convert.
      destruct (tz t); reflexivity.
    + destruct (null_text s); [reflexivity|discriminate].
  - intros _. apply fix_ts_timestamp.
  - reflexivity.
Qed.

Lemma fix_ts_unreadable (x : cell) :
  unreadable_text parse_str null_text x = true ->
  fix_ts parse_str null_text x = Raise ParserError.
Proof.
  destruct x as [s|t|]; simpl; try discriminate.
  unfold fix_ts. simpl. destruct (parse_str s); [discriminate|].
  destruct (null_text s); [discriminate|reflexivity].
Qed.

Lemma apply_raise {A B : Type} (f : A -> exc B) (e : exn) (s : list A) :
  (forall x, In x s -> f x = Raise e \/ exists y, f x = Ok y) ->
  (exists x, In x s /\ f x = Raise e) ->
  apply f s = Raise e.
Proof.
  induction s as [|x s IH]; intros Hall (x0 & Hin & Hx0).
  - destruct Hin.
  - simpl. destruct (Hall x (or_introl eq_refl)) as [E | (y & E)]; rewrite E.
    + reflexivity.
    + simpl. destruct Hin as [-> | Hin]; [congruence|].
      rewrite IH; [reflexivity| |exists x0; split; assumption].
      intros z Hz. apply Hall. right. exact Hz.
Qed.

Lemma localized_shape (x : cell) :
  localized parse_str x = NaT \/
  exists t, localized parse_str x = TS t /\ tz t = Some tzlocal.
Proof.
  unfold localized.
  destruct (to_datetime_coerce parse_str x) as [t|]; [right|left; reflexivity].
  eexists. split; reflexivity.
Qed.

Lemma localized_fixed (x : cell) :
  localized parse_str (localized parse_str x) = localized parse_str x.
Proof.
  destruct (localized_shape x) as [E | ([v z] & E & Ht)]; rewrite E.
  - reflexivity.
  - simpl in Ht. subst z. reflexivity.
Qed.

Lemma localized_readable (x : cell) :
  unreadable_text parse_str null_text (localized parse_str x) = false.
Proof.
  destruct (localized_shape x) as [E | (t & E & _)]; rewrite E; reflexivity.
Qed.

Lemma localized_canonical (x : cell) :
  localized parse_str (canonical parse_str x) = localized parse_str x.
Proof.
  unfold localized, canonical.
  destruct x as [s|t|]; simpl; try reflexivity.
  destruct (parse_str s); reflexivity.
Qed.

Lemma canonical_readable (x : cell) :
  unreadable_text parse_str null_text (canonical parse_str x) = false.
Proof.
  destruct (canonical_shape parse_str x) as [E | (t & E & _)]; rewrite E;
    reflexivity.
Qed.

(** [to_local] on a column without unreadable text. *)
Lemma to_local_readable (s : list cell) :
  existsb (unreadable_text parse_str null_text) s = false ->
  to_local parse_str null_text s = Ok (map (localized parse_str) s).
Proof.
  intros H. apply apply_pointwise. intros x Hx.
  apply fix_ts_readable.
  destruct (unreadable_text parse_str null_text x) eqn:E; [|reflexivity].
  rewrite <- H. symmetry. apply existsb_exists. exists x. split; assumption.
Qed.

Lemma to_local_unreadable (s : list cell) :
  existsb (unreadable_text parse_str null_text) s = true ->
  to_local parse_str null_text s = Raise ParserError.
Proof.
  intros H. apply existsb_exists in H. destruct H as (x & Hin & Hx).
  apply apply_raise.
  - intros y _. destruct (unreadable_text parse_str null_text y) eqn:E.
    + left. apply fix_ts_unreadable, E.
    + right. eexists. apply fix_ts_readable, E.
  - exists x. split; [exact Hin|]. apply fix_ts_unreadable, Hx.
Qed.

Lemma existsb_map_false {A B : Type} (p : B -> bool) (f : A -> B)
      (l : list A) :
  (forall x, p (f x) = false) -> existsb p (map f l) = false.
Proof.
  intros H. induction l as [|x l IH]; simpl; [reflexivity|].
  rewrite H, IH. reflexivity.
Qed.

End ProjectionFacts.

(** The error behaviour of [to_local].  A column whose texts can all be
    read, as a timestamp or as a missing value, is projected element by
    element: same length, missing values stay missing, every timestamp
    keeps its [value] and is tagged with the system zone.  A column that
    holds a text [pd.to_datetime] can read neither as a timestamp nor as a
    missing value makes the whole call raise the parser's error. *)
Theorem to_local_raises_on_unreadable_text :
  forall (parse_str : string -> option Timestamp)
         (null_text : string -> bool) (s : list cell),
    (existsb (unreadable_text parse_str null_text) s = false ->
     exists out,
       to_local parse_str null_text s = Ok out /\
       List.length out = List.length s /\
       Forall2 (fun x y =>
                  match to_datetime_coerce parse_str x with
                  | None => y = NaT
                  | Some t => y = TS (mkTimestamp (value t) (Some tzlocal))
                  end) s out) /\
    (existsb (unreadable_text parse_str null_text) s = true ->
     to_local parse_str null_text s = Raise ParserError).
Proof.
  intros parse_str null_text s. split.
  - intros H. exists (map (localized parse_str) s).
    split; [apply to_local_readable, H|].
    split; [apply length_map|].
    clear H. induction s as [|x s IH]; simpl; constructor; [|exact IH].
    unfold localized. destruct (to_datetime_coerce parse_str x); reflexivity.
  - apply to_local_unreadable.
Qed.

Lemma to_local_raises_on_unreadable_text_witness :
  let parse := fun s => if String.eqb s "1970-01-01"
                        then Some (mkTimestamp 0 None) else None in
  let null := fun s => String.eqb s "NaT" in
  (exists out,
     to_local parse null
              [TS (mkTimestamp 5 (Some UTC)); Str "1970-01-01"; Str "NaT"; NaT]
     = Ok out /\
     List.length out = 4%nat)
  /\ to_local parse null [TS (mkTimestamp 5 (Some UTC)); Str "soon"; NaT]
     = Raise ParserError.
Proof.
  intros parse null. split.
  - destruct (to_local_raises_on_unreadable_text parse null
                [TS (mkTimestamp 5 (Some UTC)); Str "1970-01-01"; Str "NaT";
                 NaT]) as [H _].
    destruct (H eq_refl) as (out & E & Hlen & _).
    exists out. split; [exact E|exact Hlen].
  - apply to_local_raises_on_unreadable_text. reflexivity.
Defined.

(** [to_local] is idempotent: projecting a projected column again returns
    it unchanged. *)
Theorem to_local_idempotent :
  forall (parse_str : string -> option Timestamp)
         (null_text : string -> bool) (s out : list cell),
    to_local parse_str null_text s = Ok out ->
    to_local parse_str null_text out = Ok out.
Proof.
  intros parse_str null_text s out H.
  destruct (existsb (unreadable_text parse_str null_text) s) eqn:E.
  - rewrite to_local_unreadable in H by exact E. discriminate.
  - rewrite to_local_readable in H by exact E. injection H as <-.
    rewrite to_local_readable
      by (apply existsb_map_false, localized_readable).
    rewrite map_map. f_equal. apply map_ext, localized_fixed.
Qed.

Lemma to_local_idempotent_witness :
  to_local (fun _ => None) (fun _ => false)
           [TS (mkTimestamp 5 (Some tzlocal)); TS (mkTimestamp 9 (Some tzlocal));
            NaT]
  = Ok [TS (mkTimestamp 5 (Some tzlocal)); TS (mkTimestamp 9 (Some tzlocal));
        NaT].
Proof.
  apply (to_local_idempotent (fun _ => None) (fun _ => false)
           [TS (mkTimestamp 5 (Some UTC)); TS (mkTimestamp 9 None); NaT]).
  reflexivity.
Defined.

(** Normalising first makes the projection safe.  Whatever the column
    holds, [to_local] applied to the output of [ensure_utc] succeeds; and
    when [to_local] succeeds on the raw column, both give the same
    result. *)
Theorem to_local_after_ensure_utc :
  forall (parse_str : string -> option Timestamp)
         (null_text : string -> bool) (s : list cell),
  exists norm out,
    ensure_utc parse_str s = Ok norm /\
    to_local parse_str null_text norm = Ok out /\
    List.length out = List.length s /\
    (forall out', to_local parse_str null_text s = Ok out' -> out' = out).
Proof.
  intros parse_str null_text s.
  exists (map (canonical parse_str) s), (map (localized parse_str) s).
  split; [apply ensure_utc_total|]. split; [|split].
  - rewrite to_local_readable
      by (apply existsb_map_false, canonical_readable).
    rewrite map_map. f_equal. apply map_ext, localized_canonical.
  - apply length_map.
  - intros out' H.
    destruct (existsb (unreadable_text parse_str null_text) s) eqn:E.
    + rewrite to_local_unreadable in H by exact E. discriminate.
    + rewrite to_local_readable in H by exact E. injection H as <-.
      reflexivity.
Qed.

Lemma to_local_after_ensure_utc_witness :
  exists norm out,
    ensure_utc (fun _ => None) [Str "soon"; Str "NaT"; TS (mkTimestamp 9 None)]
    = Ok norm /\
    to_local (fun _ => None) (fun s => String.eqb s "NaT") norm = Ok out /\
    out = [NaT; NaT; TS (mkTimestamp 9 (Some tzlocal))] /\
    to_local (fun _ => None) (fun s => String.eqb s "NaT")
             [Str "NaT"; TS (mkTimestamp 9 None)]
    = Ok [NaT; TS (mkTimestamp 9 (Some tzlocal))].
Proof.
  destruct (to_local_after_ensure_utc (fun _ => None)
              (fun s => String.eqb s "NaT")
              [Str "soon"; Str "NaT"; TS (mkTimestamp 9 None)])
    as (norm & out & H1 & H2 & _).
  exists norm, out. split; [exact H1|]. split; [exact H2|].
  vm_compute in H1. injection H1 as <-.
  vm_compute in H2. injection H2 as <-.
  split; reflexivity.
Defined.

(** ** The view under changes of the log and of the filter *)

Lemma filter_twice {A : Type} (p q : A -> bool) (l : list A) :
  filter p (filter q l) = filter (fun x => p x && q x) l.
Proof.
  induction l as [|x l IH]; simpl; [reflexivity|].
  destruct (q x); simpl.
  - destruct (p x); simpl; rewrite IH; reflexivity.
  - rewrite andb_false_r. exact IH.
Qed.

Section ViewChanges.

Variable parse_str : string -> option Timestamp.
Variable local_utcoffset : Z -> Z.

Local Abbreviation canon_row := (canonical_row parse_str).
Local Abbreviation keep := (fun s e ctx r =>
  in_window local_utcoffset s e r && context_passes ctx r).

Lemma canonical_row_fixed (r : Reading) (t : Timestamp) :
  datetime r = TS t -> tz t = Some UTC -> canon_row r = r.
Proof.
  destruct r as [d g c cb ins n]. simpl. intros -> Ht.
  unfold canonical_row. simpl.
  rewrite (canonical_fixed parse_str t Ht). reflexivity.
Qed.

Lemma view_row_in_window (df : list Reading) (start_date end_date : Z)
      (ctx_filter : list string) (v : list Reading) (r : Reading) :
  view parse_str local_utcoffset df start_date end_date ctx_filter = Ok v ->
  In r v ->
  exists t, datetime r = TS t /\ tz t = Some UTC /\
            start_date <= value t / ns_per_day <= end_date.
Proof.
  intros Hv Hr.
  destruct (view_rows_have_timestamps _ _ _ _ _ _ _ Hv r Hr) as (t & E & Ht).
  exists t. split; [exact E|]. split; [exact Ht|].
  rewrite view_filter in Hv. injection Hv as <-.
  apply filter_In in Hr. destruct Hr as [_ Hp].
  apply andb_true_iff in Hp. destruct Hp as [Hw _].
  apply in_window_true in Hw. destruct Hw as (t' & E' & Hd).
  rewrite E in E'. injection E' as <-.
  rewrite <- (date_utc local_utcoffset t Ht). exact Hd.
Qed.

Lemma in_window_widen (s e s' e' : Z) (r : Reading) :
  s' <= s -> e <= e' ->
  in_window local_utcoffset s e r = true ->
  in_window local_utcoffset s' e' r = true.
Proof.
  intros Hs He. rewrite !in_window_true.
  intros (t & E & Hd). exists t. split; [exact E|lia].
Qed.

Lemma view_idem (df : list Reading) (s e : Z) (ctx : list string)
      (v : list Reading) :
  view parse_str local_utcoffset df s e ctx = Ok v ->
  view parse_str local_utcoffset v s e ctx = Ok v.
Proof.
  intros Hv.
  pose proof (view_rows_have_timestamps _ _ _ _ _ _ _ Hv) as Hrows.
  rewrite view_filter in Hv. injection Hv as Hv.
  rewrite view_filter. f_equal.
  assert (Hmap : map canon_row v = v).
  { rewrite <- (map_id v) at 2. apply map_ext_in. intros r Hr.
    destruct (Hrows r Hr) as (t & E & Ht).
    exact (canonical_row_fixed r t E Ht). }
  rewrite Hmap. rewrite <- Hv at 1. rewrite filter_twice.
  rewrite <- Hv. apply filter_ext. intros r. apply andb_diag.
Qed.

End ViewChanges.

(** The mask works row by row: the view of a log followed by further rows
    is the view of the log followed by the view of those rows. *)
Theorem view_app :
  forall (parse_str : string -> option Timestamp)
         (local_utcoffset : Z -> Z) (df more : list Reading)
         (start_date end_date : Z) (ctx_filter : list string),
  exists v w,
    view parse_str local_utcoffset df start_date end_date ctx_filter = Ok v /\
    view parse_str local_utcoffset more start_date end_date ctx_filter
    = Ok w /\
    view parse_str local_utcoffset (df ++ more) start_date end_date ctx_filter
    = Ok (v ++ w).
Proof.
  intros parse_str local_utcoffset df more start_date end_date ctx_filter.
  do 2 eexists. split; [apply view_filter|]. split; [apply view_filter|].
  rewrite view_filter, map_app, filter_app. reflexivity.
Qed.

(** Narrowing the window only removes rows: the view for a window inside
    another is the wider view filtered by the inner window, so its rows are
    rows of the wider view, in the same order. *)
Theorem view_narrower_window :
  forall (parse_str : string -> option Timestamp)
         (local_utcoffset : Z -> Z) (df : list Reading)
         (s e s' e' : Z) (ctx_filter : list string),
    s' <= s ->
    e <= e' ->
    exists v v',
      view parse_str local_utcoffset df s e ctx_filter = Ok v /\
      view parse_str local_utcoffset df s' e' ctx_filter = Ok v' /\
      v = filter (in_window local_utcoffset s e) v' /\
      (forall r, In r v -> In r v') /\
      (List.length v <= List.length v')%nat.
Proof.
  intros parse_str local_utcoffset df s e s' e' ctx_filter Hs He.
  do 2 eexists. split; [apply view_filter|]. split; [apply view_filter|].
  assert (E : filter (fun r => in_window local_utcoffset s e r
                               && context_passes ctx_filter r)
                     (map (canonical_row parse_str) df)
              = filter (in_window local_utcoffset s e)
                  (filter (fun r => in_window local_utcoffset s' e' r
                                    && context_passes ctx_filter r)
                          (map (canonical_row parse_str) df))).
  { rewrite filter_twice. apply filter_ext. intros r.
    destruct (in_window local_utcoffset s e r) eqn:W; [|reflexivity].
    rewrite (in_window_widen local_utcoffset s e s' e' r Hs He W).
    reflexivity. }
  split; [exact E|]. rewrite E. split.
  - intros r Hr. apply filter_In in Hr. apply Hr.
  - apply filter_length_le.
Qed.

Lemma view_narrower_window_witness :
  let a := mkReading (TS (mkTimestamp (3 * ns_per_day) None)) (Some 100)
                     "fasting" 0 0 "" in
  let b := mkReading (TS (mkTimestamp (5 * ns_per_day) None)) (Some 140)
                     "bedtime" 0 0 "" in
  exists v v',
    view (fun _ => None) (fun _ => 0) [a; b] 4 6 [] = Ok v /\
    view (fun _ => None) (fun _ => 0) [a; b] 2 6 [] = Ok v' /\
    (List.length v <= List.length v')%nat.
Proof.
  intros a b.
  destruct (view_narrower_window (fun _ => None) (fun _ => 0) [a; b]
              4 6 2 6 []) as (v & v' & H1 & H2 & _ & _ & Hlen).
  - discriminate.
  - discriminate.
  - exists v, v'. split; [exact H1|]. split; [exact H2|exact Hlen].
Defined.

(** A non-empty context filter selects, from the view without a context
    filter, the rows whose context is one of the chosen ones. *)
Theorem view_context_filter :
  forall (parse_str : string -> option Timestamp)
         (local_utcoffset : Z -> Z) (df : list Reading)
         (start_date end_date : Z) (ctx_filter : list string),
    ctx_filter <> [] ->
    exists v0 v,
      view parse_str local_utcoffset df start_date end_date [] = Ok v0 /\
      view parse_str local_utcoffset df start_date end_date ctx_filter
      = Ok v /\
      v = filter (fun r => existsb (String.eqb (context r)) ctx_filter) v0.
Proof.
  intros parse_str local_utcoffset df start_date end_date ctx_filter Hne.
  do 2 eexists. split; [apply view_filter|]. split; [apply view_filter|].
  rewrite filter_twice. apply filter_ext. intros r.
  destruct ctx_filter as [|c ctx]; [contradiction|].
  simpl context_passes at 2. rewrite andb_true_r.
  apply andb_comm.
Qed.

Lemma view_context_filter_witness :
  let a := mkReading (TS (mkTimestamp (3 * ns_per_day) None)) (Some 100)
                     "fasting" 0 0 "" in
  let b := mkReading (TS (mkTimestamp (5 * ns_per_day) None)) (Some 140)
                     "bedtime" 0 0 "" in
  exists v0 v,
    view (fun _ => None) (fun _ => 0) [a; b] 2 6 [] = Ok v0 /\
    view (fun _ => None) (fun _ => 0) [a; b] 2 6 ["bedtime"%string] = Ok v /\
    v = filter (fun r => existsb (String.eqb (context r))
                                 ["bedtime"%string]) v0.
Proof.
  intros a b.
  apply (view_context_filter (fun _ => None) (fun _ => 0) [a; b] 2 6
                             ["bedtime"%string]).
  discriminate.
Defined.

(** Filtering a view again with the same window and the same context
    filter returns it unchanged. *)
Theorem view_idempotent :
  forall (parse_str : string -> option Timestamp)
         (local_utcoffset : Z -> Z) (df v : list Reading)
         (start_date end_date : Z) (ctx_filter : list string),
    view parse_str local_utcoffset df start_date end_date ctx_filter = Ok v ->
    view parse_str local_utcoffset v start_date end_date ctx_filter = Ok v.
Proof.
  intros parse_str local_utcoffset df v start_date end_date ctx_filter.
  apply view_idem.
Qed.

Lemma view_idempotent_witness :
  let b := mkReading (TS (mkTimestamp (5 * ns_per_day) (Some UTC))) (Some 140)
                     "bedtime" 0 0 "" in
  view (fun _ => None) (fun _ => 0) [b] 4 6 [] = Ok [b].
Proof.
  intros b.
  apply (view_idempotent (fun _ => None) (fun _ => 0)
           [mkReading (Str "junk") (Some 90) "other" 0 0 "";
            mkReading (TS (mkTimestamp (5 * ns_per_day) None)) (Some 140)
                      "bedtime" 0 0 ""]).
  reflexivity.
Defined.

(** The date a row of the view shows in the [local_dt] column can differ
    from the date the mask tested, but by one day at most when the system
    zone is within a day of UTC: it lies between the day before the start
    and the day after the end of the window. *)
Theorem view_local_date_within_a_day :
  forall (parse_str : string -> option Timestamp)
         (null_text : string -> bool)
         (local_utcoffset : Z -> Z) (df v : list Reading)
         (start_date end_date : Z) (ctx_filter : list string)
         (r : Reading) (t : Timestamp),
    (forall i, - ns_per_day <= local_utcoffset i <= ns_per_day) ->
    view parse_str local_utcoffset df start_date end_date ctx_filter = Ok v ->
    In r v ->
    datetime r = TS t ->
    exists t',
      fix_ts parse_str null_text (datetime r) = Ok (TS t') /\
      start_date - 1 <= date local_utcoffset t' <= end_date + 1.
Proof.
  intros parse_str null_text local_utcoffset df v start_date end_date
         ctx_filter r t Hoff Hv Hr E.
  destruct (view_row_in_window _ _ _ _ _ _ _ _ Hv Hr) as (u & E' & _ & Hd).
  rewrite E in E'. injection E' as <-.
  rewrite E, fix_ts_timestamp. eexists. split; [reflexivity|].
  unfold date, wall_clock. simpl.
  specialize (Hoff (value t)).
  assert (Hpos : 0 < ns_per_day) by reflexivity.
  assert (Hup : (value t + local_utcoffset (value t)) / ns_per_day
                <= (value t + 1 * ns_per_day) / ns_per_day).
  { apply Z.div_le_mono; lia. }
  assert (Hdn : (value t + (-1) * ns_per_day) / ns_per_day
                <= (value t + local_utcoffset (value t)) / ns_per_day).
  { apply Z.div_le_mono; lia. }
  rewrite Z.div_add in Hup, Hdn by lia. lia.
Qed.

Lemma view_local_date_within_a_day_witness :
  let r := mkReading (TS (mkTimestamp 1704151800000000000 (Some UTC)))
                     (Some 120) "fasting" 0 0 "" in
  exists t',
    fix_ts (fun _ => None) (fun _ => false) (datetime r) = Ok (TS t') /\
    19723 - 1 <= date (fun _ => 7200000000000) t' <= 19723 + 1.
Proof.
  intros r.
  apply (view_local_date_within_a_day (fun _ => None) (fun _ => false)
           (fun _ => 7200000000000) [r] [r] 19723 19723 [] r
           (mkTimestamp 1704151800000000000 (Some UTC))).
  - intros _. split; discriminate.
  - reflexivity.
  - left. reflexivity.
  - reflexivity.
Defined.

(** ** Adding a reading *)

Lemma date_of_new_row (local_utcoffset : Z -> Z) (date_in time_in : Z) :
  0 <= time_in < ns_per_day ->
  date local_utcoffset
       (mkTimestamp (date_in * ns_per_day + time_in) (Some UTC))
  = date_in.
Proof.
  intros H. unfold date, wall_clock. simpl. rewrite Z.add_0_r.
  rewrite Z.add_comm, Z.div_add by discriminate.
  rewrite Z.div_small by exact H. reflexivity.
Qed.

(** "Add reading" never fails and appends one row, whose timestamp is the
    typed date and time tagged as UTC.  In the run in which the button is
    pressed, the view built further down the script holds the rows it would
    hold without the new reading, in the same order, and the new row
    follows them exactly when the typed date lies in the window and the
    context passes the context filter. *)
Theorem add_reading_then_view :
  forall (strip : string -> string)
         (parse_str : string -> option Timestamp)
         (local_utcoffset : Z -> Z) (df : list Reading)
         (date_in time_in glucose : Z) (context : string)
         (carbs insulin : Q) (notes : string)
         (start_date end_date : Z) (ctx_filter : list string),
    0 <= time_in < ns_per_day ->
    let row :=
      mkReading (TS (mkTimestamp (date_in * ns_per_day + time_in) (Some UTC)))
                (Some glucose) context carbs insulin (strip notes) in
    exists v,
      add_reading strip df date_in time_in glucose context carbs insulin notes
      = Ok (df ++ [row]) /\
      view parse_str local_utcoffset df start_date end_date ctx_filter
      = Ok v /\
      view parse_str local_utcoffset (df ++ [row]) start_date end_date
           ctx_filter
      = Ok (v ++ if (start_date <=? date_in) && (date_in <=? end_date)
                    && match ctx_filter with
                       | [] => true
                       | _ :: _ => existsb (String.eqb context) ctx_filter
                       end
                 then [row] else []).
Proof.
  intros strip parse_str local_utcoffset df date_in time_in glucose context
         carbs insulin notes start_date end_date ctx_filter Ht row.
  eexists. split; [reflexivity|]. split; [apply view_filter|].
  rewrite view_filter, map_app, filter_app. f_equal. f_equal.
  simpl. unfold in_window. simpl.
  rewrite (date_of_new_row local_utcoffset date_in time_in Ht).
  unfold context_passes. simpl.
  destruct ((start_date <=? date_in) && (date_in <=? end_date)
            && match ctx_filter with
               | [] => true
               | _ :: _ => existsb (String.eqb context) ctx_filter
               end); reflexivity.
Qed.

Lemma add_reading_then_view_witness :
  let old := mkReading (TS (mkTimestamp (19722 * ns_per_day) (Some UTC)))
                       (Some 95) "fasting" 0 0 "" in
  let row := mkReading (TS (mkTimestamp (19723 * ns_per_day + 30600000000000)
                                        (Some UTC)))
                       (Some 130) "bedtime" 12 1.5 "late snack" in
  add_reading (fun s => s) [old] 19723 30600000000000 130 "bedtime" 12 1.5
              "late snack"
  = Ok [old; row] /\
  view (fun _ => None) (fun _ => 0) [old; row] 19722 19723 [] = Ok [old; row]
  /\ view (fun _ => None) (fun _ => 0) [old; row] 19722 19722 [] = Ok [old].
Proof.
  intros old row.
  assert (Ht : 0 <= 30600000000000 < ns_per_day) by (split; discriminate || reflexivity).
  destruct (add_reading_then_view (fun s => s) (fun _ => None) (fun _ => 0)
              [old] 19723 30600000000000 130 "bedtime" 12 1.5 "late snack"
              19722 19723 [] Ht) as (v & Ha & Hv & Hv').
  destruct (add_reading_then_view (fun s => s) (fun _ => None) (fun _ => 0)
              [old] 19723 30600000000000 130 "bedtime" 12 1.5 "late snack"
              19722 19722 [] Ht) as (w & _ & Hw & Hw').
  vm_compute in Hv. injection Hv as <-.
  vm_compute in Hw. injection Hw as <-.
  split; [exact Ha|]. split; [exact Hv'|exact Hw'].
Defined.

(** ** Importing readings *)

Section ImportFacts.

Variable same_row : Reading -> Reading -> bool.
Hypothesis same_refl : forall a, same_row a a = true.
Hypothesis same_sym : forall a b, same_row a b = same_row b a.
Hypothesis same_trans :
  forall a b c, same_row a b = true -> same_row b c = true ->
                same_row a c = true.

(** The rows kept by [drop_duplicates] when the rows [seen] stand before. *)
Local Abbreviation kept := (fun seen df =>
  loc df (map negb (duplicated same_row seen df))).

Lemma kept_cons (seen : list Reading) (r : Reading) (df : list Reading) :
  kept seen (r :: df)
  = if existsb (same_row r) seen then kept (r :: seen) df
    else r :: kept (r :: seen) df.
Proof. simpl. destruct (existsb (same_row r) seen); reflexivity. Qed.

Lemma kept_in (df : list Reading) :
  forall seen x, In x (kept seen df) ->
                 In x df /\ existsb (same_row x) seen = false.
Proof.
  induction df as [|r df IH]; intros seen x Hx.
  - destruct Hx.
  - rewrite kept_cons in Hx.
    assert (Htail : In x (kept (r :: seen) df) ->
                    In x (r :: df) /\ existsb (same_row x) seen = false).
    { intros H. destruct (IH _ _ H) as [Hin Hs]. split; [right; exact Hin|].
      simpl in Hs. apply orb_false_iff in Hs. apply Hs. }
    destruct (existsb (same_row r) seen) eqn:E.
    + apply Htail, Hx.
    + destruct Hx as [<- | Hx]; [|apply Htail, Hx].
      split; [left; reflexivity|exact E].
Qed.

Lemma kept_distinct (df : list Reading) :
  forall seen, all_distinct same_row (kept seen df) = true.
Proof.
  induction df as [|r df IH]; intros seen; [reflexivity|].
  rewrite kept_cons. destruct (existsb (same_row r) seen); [apply IH|].
  simpl. rewrite IH, andb_true_r. apply negb_true_iff.
  destruct (existsb (same_row r) (kept (r :: seen) df)) eqn:E; [|reflexivity].
  apply existsb_exists in E. destruct E as (y & Hy & Hry).
  destruct (kept_in _ _ _ Hy) as [_ Hs]. simpl in Hs.
  apply orb_false_iff in Hs. destruct Hs as [Hyr _].
  rewrite same_sym in Hyr. congruence.
Qed.

Lemma kept_cover (df : list Reading) :
  forall seen x, In x df ->
    existsb (same_row x) seen = true
    \/ existsb (same_row x) (kept seen df) = true.
Proof.
  induction df as [|r df IH]; intros seen x Hx; [destruct Hx|].
  rewrite kept_cons.
  assert (Hr : existsb (same_row x) (r :: seen) = true ->
               existsb (same_row x) seen = true
               \/ existsb (same_row x)
                    (if existsb (same_row r) seen then kept (r :: seen) df
                     else r :: kept (r :: seen) df) = true).
  { simpl. intros H. apply orb_true_iff in H. destruct H as [H|H].
    - destruct (existsb (same_row r) seen) eqn:E.
      + left. apply existsb_exists in E. destruct E as (y & Hy & Hry).
        apply existsb_exists. exists y. split; [exact Hy|].
        exact (same_trans _ _ _ H Hry).
      + right. simpl. rewrite H. reflexivity.
    - left. exact H. }
  destruct Hx as [<- | Hx].
  - apply Hr. simpl. rewrite same_refl. reflexivity.
  - destruct (IH (r :: seen) x Hx) as [H|H]; [apply Hr, H|].
    right. destruct (existsb (same_row r) seen); [exact H|].
    simpl. rewrite H. apply orb_true_r.
Qed.

Lemma kept_all (df : list Reading) :
  forall seen,
    all_distinct same_row df = true ->
    (forall x, In x df -> existsb (same_row x) seen = false) ->
    kept seen df = df.
Proof.
  induction df as [|r df IH]; intros seen Hd Hs; [reflexivity|].
  rewrite kept_cons, (Hs r) by (left; reflexivity).
  simpl in Hd. apply andb_true_iff in Hd. destruct Hd as [Hr Hd].
  apply negb_true_iff in Hr.
  f_equal. apply IH; [exact Hd|].
  intros x Hx. simpl. rewrite (Hs x) by (right; exact Hx).
  rewrite orb_false_r.
  destruct (same_row x r) eqn:E; [|reflexivity].
  rewrite <- Hr. symmetry. apply existsb_exists.
  exists x. split; [exact Hx|]. rewrite same_sym. exact E.
Qed.

Lemma kept_none (df : list Reading) :
  forall seen,
    (forall x, In x df -> existsb (same_row x) seen = true) ->
    kept seen df = [].
Proof.
  induction df as [|r df IH]; intros seen Hs; [reflexivity|].
  rewrite kept_cons, (Hs r) by (left; reflexivity).
  apply IH. intros x Hx. simpl. rewrite (Hs x) by (right; exact Hx).
  apply orb_true_r.
Qed.

Lemma kept_app (df more : list Reading) :
  forall seen, kept seen (df ++ more) = kept seen df ++ kept (rev df ++ seen) more.
Proof.
  induction df as [|r df IH]; intros seen; [reflexivity|].
  change ((r :: df) ++ more) with (r :: (df ++ more)).
  rewrite !kept_cons, IH. simpl rev. rewrite <- app_assoc. simpl.
  destruct (existsb (same_row r) seen); reflexivity.
Qed.

Lemma existsb_rev (x : Reading) (l : list Reading) :
  existsb (same_row x) (rev l ++ []) = existsb (same_row x) l.
Proof.
  rewrite app_nil_r.
  destruct (existsb (same_row x) l) eqn:E.
  - apply existsb_exists in E. destruct E as (y & Hy & Hxy).
    apply existsb_exists. exists y. split; [|exact Hxy].
    apply in_rev in Hy. exact Hy.
  - destruct (existsb (same_row x) (rev l)) eqn:E'; [|reflexivity].
    apply existsb_exists in E'. destruct E' as (y & Hy & Hxy).
    rewrite <- E. symmetry. apply existsb_exists.
    exists y. split; [|exact Hxy]. apply in_rev. exact Hy.
Qed.

Lemma merged_split (df incoming : list Reading) :
  all_distinct same_row df = true ->
  merged same_row df incoming = df ++ kept (rev df ++ []) incoming.
Proof.
  intros Hd. unfold merged, drop_duplicates. rewrite kept_app.
  rewrite kept_all; [reflexivity|exact Hd|reflexivity].
Qed.

End ImportFacts.

(** [row_eqb] is an equivalence. *)

Lemma cell_eqb_refl (x : cell) : cell_eqb x x = true.
Proof.
  destruct x as [s|t|]; simpl; [apply String.eqb_refl| |reflexivity].
  rewrite Z.eqb_refl. destruct (tz t); reflexivity.
Qed.

Lemma cell_eqb_sym (x y : cell) : cell_eqb x y = cell_eqb y x.
Proof.
  destruct x as [s|t|], y as [s'|t'|]; simpl; try reflexivity.
  - apply String.eqb_sym.
  - rewrite Z.eqb_sym. destruct (tz t), (tz t'); reflexivity.
Qed.

Lemma cell_eqb_trans (x y z : cell) :
  cell_eqb x y = true -> cell_eqb y z = true -> cell_eqb x z = true.
Proof.
  destruct x as [a|a|], y as [b|b|], z as [c|c|]; simpl;
    try discriminate; try reflexivity.
  - rewrite !String.eqb_eq. congruence.
  - rewrite !andb_true_iff, !Z.eqb_eq. intros [E1 T1] [E2 T2].
    split; [congruence|].
    destruct (tz a), (tz b), (tz c); try discriminate; reflexivity.
Qed.

Lemma glucose_eqb_refl (x : option Z) : glucose_eqb x x = true.
Proof. destruct x; simpl; [apply Z.eqb_refl|reflexivity]. Qed.

Lemma glucose_eqb_sym (x y : option Z) : glucose_eqb x y = glucose_eqb y x.
Proof. destruct x, y; simpl; try reflexivity. apply Z.eqb_sym. Qed.

Lemma glucose_eqb_trans (x y z : option Z) :
  glucose_eqb x y = true -> glucose_eqb y z = true -> glucose_eqb x z = true.
Proof.
  destruct x, y, z; simpl; try discriminate; try reflexivity.
  rewrite !Z.eqb_eq. congruence.
Qed.

Lemma row_eqb_refl (a : Reading) : row_eqb a a = true.
Proof.
  unfold row_eqb.
  rewrite cell_eqb_refl, glucose_eqb_refl, !String.eqb_refl, !Qeq_bool_refl.
  reflexivity.
Qed.

Lemma Qeq_bool_comm (x y : Q) : Qeq_bool x y = Qeq_bool y x.
Proof.
  destruct (Qeq_bool x y) eqn:E1, (Qeq_bool y x) eqn:E2; try reflexivity.
  - apply Qeq_bool_sym in E1. congruence.
  - apply Qeq_bool_sym in E2. congruence.
Qed.

Lemma row_eqb_sym (a b : Reading) : row_eqb a b = row_eqb b a.
Proof.
  unfold row_eqb.
  rewrite (cell_eqb_sym (datetime a)), (glucose_eqb_sym (glucose_mgdl a)),
    (String.eqb_sym (context a)), (String.eqb_sym (notes a)),
    (Qeq_bool_comm (carbs_g a)), (Qeq_bool_comm (insulin_units a)).
  reflexivity.
Qed.

Lemma row_eqb_trans (a b c : Reading) :
  row_eqb a b = true -> row_eqb b c = true -> row_eqb a c = true.
Proof.
  unfold row_eqb. rewrite !andb_true_iff.
  intros [[[[[D1 G1] C1] B1] I1] N1] [[[[[D2 G2] C2] B2] I2] N2].
  repeat split.
  - exact (cell_eqb_trans _ _ _ D1 D2).
  - exact (glucose_eqb_trans _ _ _ G1 G2).
  - apply String.eqb_eq in C1, C2. apply String.eqb_eq. congruence.
  - exact (Qeq_bool_trans _ _ _ B1 B2).
  - exact (Qeq_bool_trans _ _ _ I1 I2).
  - apply String.eqb_eq in N1, N2. apply String.eqb_eq. congruence.
Qed.

(** The import leaves no duplicate rows and loses no reading: no row of
    [merged] is the same as an earlier one, every row of the log and of the
    upload has a row that is the same in [merged], and [merged] holds
    nothing else. *)
Theorem merged_has_no_duplicates :
  forall (same_row : Reading -> Reading -> bool)
         (df incoming : list Reading),
    (forall a, same_row a a = true) ->
    (forall a b, same_row a b = same_row b a) ->
    (forall a b c, same_row a b = true -> same_row b c = true ->
                   same_row a c = true) ->
    all_distinct same_row (merged same_row df incoming) = true /\
    (forall x, In x (df ++ incoming) ->
               existsb (same_row x) (merged same_row df incoming) = true) /\
    (forall x, In x (merged same_row df incoming) -> In x (df ++ incoming)) /\
    (List.length (merged same_row df incoming)
     <= List.length df + List.length incoming)%nat.
Proof.
  intros same_row df incoming Hrefl Hsym Htrans.
  unfold merged, drop_duplicates. split; [|split; [|split]].
  - apply kept_distinct, Hsym.
  - intros x Hx.
    destruct (kept_cover same_row Hrefl Htrans _ [] x Hx) as [H|H];
      [discriminate|exact H].
  - intros x Hx.
    apply (kept_in same_row (df ++ incoming) [] x Hx).
  - rewrite <- length_app. generalize (df ++ incoming) (@nil Reading).
    intros l. induction l as [|r l IH]; intros seen; [apply Nat.le_refl|].
    rewrite kept_cons. specialize (IH (r :: seen)).
    destruct (existsb (same_row r) seen); simpl List.length in *; lia.
Qed.

Lemma merged_has_no_duplicates_witness :
  let a := mkReading (TS (mkTimestamp 0 (Some UTC))) (Some 100) "fasting" 0 0 "" in
  let b := mkReading (TS (mkTimestamp 9 (Some UTC))) (Some 140) "bedtime" 0 0 "" in
  all_distinct row_eqb (merged row_eqb [a; b; a] [b; a]) = true /\
  merged row_eqb [a; b; a] [b; a] = [a; b].
Proof.
  intros a b.
  destruct (merged_has_no_duplicates row_eqb [a; b; a] [b; a]
              row_eqb_refl row_eqb_sym row_eqb_trans) as [H _].
  split; [exact H|reflexivity].
Defined.

(** Importing into a log without duplicates keeps the log as it is, rows
    and order, and appends the uploaded rows that are new; when every
    uploaded row is already in the log, the import changes nothing. *)
Theorem merged_keeps_log :
  forall (same_row : Reading -> Reading -> bool)
         (df incoming : list Reading),
    (forall a b, same_row a b = same_row b a) ->
    all_distinct same_row df = true ->
    exists added,
      merged same_row df incoming = df ++ added /\
      (forall x, In x added ->
                 In x incoming /\ existsb (same_row x) df = false) /\
      ((forall x, In x incoming -> existsb (same_row x) df = true) ->
       added = []).
Proof.
  intros same_row df incoming Hsym Hd.
  eexists. split; [apply merged_split; assumption|]. split.
  - intros x Hx. destruct (kept_in same_row _ _ _ Hx) as [Hin Hs].
    split; [exact Hin|]. rewrite <- existsb_rev. exact Hs.
  - intros Hall. apply kept_none. intros x Hx.
    rewrite existsb_rev. apply Hall, Hx.
Qed.

Lemma merged_keeps_log_witness :
  let a := mkReading (TS (mkTimestamp 0 (Some UTC))) (Some 100) "fasting" 0 0 "" in
  let b := mkReading (TS (mkTimestamp 9 (Some UTC))) (Some 140) "bedtime" 0 0 "" in
  let c := mkReading (TS (mkTimestamp 9 (Some UTC))) (Some 141) "bedtime" 0 0 "" in
  exists added,
    merged row_eqb [a; b] [b; c; a; c] = [a; b] ++ added /\ added = [c].
Proof.
  intros a b c.
  destruct (merged_keeps_log row_eqb [a; b] [b; c; a; c] row_eqb_sym eq_refl)
    as (added & H & _).
  exists added. split; [exact H|].
  vm_compute in H. injection H as <-. reflexivity.
Defined.

(** Importing the same upload a second time changes nothing. *)
Theorem merged_twice :
  forall (same_row : Reading -> Reading -> bool)
         (df incoming : list Reading),
    (forall a, same_row a a = true) ->
    (forall a b, same_row a b = same_row b a) ->
    (forall a b c, same_row a b = true -> same_row b c = true ->
                   same_row a c = true) ->
    merged same_row (merged same_row df incoming) incoming
    = merged same_row df incoming.
Proof.
  intros same_row df incoming Hrefl Hsym Htrans.
  rewrite (merged_split same_row Hsym (merged same_row df incoming)).
  - rewrite kept_none; [apply app_nil_r|].
    intros x Hx. rewrite existsb_rev.
    destruct (kept_cover same_row Hrefl Htrans (df ++ incoming) [] x) as [H|H].
    + apply in_or_app. right. exact Hx.
    + discriminate.
    + exact H.
  - apply kept_distinct, Hsym.
Qed.

Lemma merged_twice_witness :
  let a := mkReading (TS (mkTimestamp 0 (Some UTC))) (Some 100) "fasting" 0 0 "" in
  let b := mkReading (TS (mkTimestamp 9 (Some UTC))) (Some 140) "bedtime" 0 0 "" in
  merged row_eqb (merged row_eqb [a] [b; a; b]) [b; a; b]
  = merged row_eqb [a] [b; a; b].
Proof.
  intros a b.
  apply merged_twice;
    [exact row_eqb_refl | exact row_eqb_sym | exact row_eqb_trans].
Defined.

(** ** More on the metrics *)

Lemma tenths_range (k : Z) :
  0 <= k <= 1000 -> (0 <= rn (inject_Z k / 10) <= 100)%Q.
Proof.
  intros Hk. pose proof (tenths_double k Hk) as P.
  apply Qabs_Qle_condition in P. destruct P as [P1 P2].
  destruct (Z.eq_dec k 0) as [->|N0].
  - rewrite (rn_proper (inject_Z 0 / 10) 0) by reflexivity.
    rewrite rn_0. split; discriminate.
  - destruct (Z.eq_dec k 1000) as [->|N1].
    + rewrite (rn_proper (inject_Z 1000 / 10) 100) by reflexivity.
      rewrite rn_100. split; discriminate.
    + assert (A : (1 <= inject_Z k)%Q)
        by (change 1%Q with (inject_Z 1); rewrite <- Zle_Qle; lia).
      assert (B : (inject_Z k <= 999)%Q)
        by (change 999%Q with (inject_Z 999); rewrite <- Zle_Qle; lia).
      set (p := rn (inject_Z k / 10)) in *.
      unfold Qdiv in P1, P2. change (/ 10)%Q with (1 # 10)%Q in P1, P2.
      split; lra.
Qed.

Lemma percentage_range (c n : Z) :
  0 <= c <= n -> 0 < n ->
  exists p : Q,
    round_np (true_divide (100 * c) n) 1 = Fin p /\ (0 <= p <= 100)%Q.
Proof.
  intros Hc Hn.
  destruct (percentage_tenths c n Hc Hn) as (k & E & Hk & _).
  eexists. split; [exact E|]. apply tenths_range, Hk.
Qed.

(** Whatever the thresholds, also with [low > high], and whatever the
    series, also with missing values, each of the three results of
    [time_in_range] is a number between 0 and 100. *)
Theorem time_in_range_bounds :
  forall (series : list (option Z)) (low high : Z),
  exists in_pct below_pct above_pct : Q,
    time_in_range series low high
    = (Fin in_pct, Fin below_pct, Fin above_pct) /\
    (0 <= in_pct <= 100)%Q /\ (0 <= below_pct <= 100)%Q /\
    (0 <= above_pct <= 100)%Q.
Proof.
  intros series low high.
  destruct series as [|v s].
  - exists 0%Q, 0%Q, 0%Q. split; [reflexivity|].
    repeat split; discriminate.
  - rewrite time_in_range_nonempty by discriminate. cbv zeta.
    assert (Hn : 0 < Z.of_nat (List.length (v :: s)))
      by (simpl List.length; lia).
    destruct (percentage_range _ _
                (count_bounds (is_in_range low high) (v :: s)) Hn)
      as (a & Ea & Ha).
    destruct (percentage_range _ _
                (count_bounds (is_below low) (v :: s)) Hn)
      as (b & Eb & Hb).
    destruct (percentage_range _ _
                (count_bounds (is_above high) (v :: s)) Hn)
      as (c & Ec & Hc).
    exists a, b, c. rewrite Ea, Eb, Ec.
    split; [reflexivity|]. split; [exact Ha|]. split; [exact Hb|exact Hc].
Qed.

Lemma percentage_full (n : Z) :
  0 < n -> round_np (true_divide (100 * n) n) 1 = Fin 100.
Proof.
  intros Hn. unfold true_divide.
  destruct (Z.eqb_spec n 0) as [E|_]; [lia|].
  rewrite (rn_proper (inject_Z (100 * n) / inject_Z n) 100).
  - vm_compute. reflexivity.
  - rewrite inject_Z_mult. change (inject_Z 100) with 100%Q. field.
    change 0%Q with (inject_Z 0). rewrite inject_Z_injective. lia.
Qed.

Lemma percentage_none (n : Z) :
  0 < n -> round_np (true_divide (100 * 0) n) 1 = Fin 0.
Proof.
  intros Hn. unfold true_divide.
  destruct (Z.eqb_spec n 0) as [E|_]; [lia|].
  rewrite (rn_proper (inject_Z (100 * 0) / inject_Z n) 0).
  - vm_compute. reflexivity.
  - change (inject_Z (100 * 0)) with 0%Q. field.
    change 0%Q with (inject_Z 0). rewrite inject_Z_injective. lia.
Qed.

(** When every reading has a glucose value and every value lies in
    [[low, high]] the result is (100, 0, 0). *)
Theorem time_in_range_all_in_range :
  forall (series : list (option Z)) (low high : Z),
    series <> [] ->
    (forall v, In v series -> exists x, v = Some x /\ low <= x <= high) ->
    time_in_range series low high = (Fin 100, Fin 0, Fin 0).
Proof.
  intros series low high Hne Hall.
  rewrite time_in_range_nonempty by exact Hne. cbv zeta.
  assert (Hn : 0 < Z.of_nat (List.length series))
    by (destruct series; [contradiction|simpl List.length; lia]).
  rewrite (count_all (is_in_range low high)),
    (count_none (is_below low)), (count_none (is_above high)).
  - rewrite percentage_full, percentage_none by exact Hn. reflexivity.
  - intros v Hv. destruct (Hall v Hv) as (x & -> & Hx). simpl.
    apply Z.ltb_ge. lia.
  - intros v Hv. destruct (Hall v Hv) as (x & -> & Hx). simpl.
    apply Z.ltb_ge. lia.
  - intros v Hv. destruct (Hall v Hv) as (x & -> & Hx). simpl.
    apply andb_true_iff. rewrite !Z.leb_le. exact Hx.
Qed.

Lemma time_in_range_all_in_range_witness :
  time_in_range [Some 100; Some 90; Some 150] 70 180
  = (Fin 100, Fin 0, Fin 0).
Proof.
  apply (time_in_range_all_in_range [Some 100; Some 90; Some 150] 70 180).
  - discriminate.
  - intros v [<-|[<-|[<-|[]]]]; eexists; (split; [reflexivity|]);
      split; discriminate.
Defined.

(** The relation of the code's comment, read backwards.  For a mean
    between 0 and 1000 mg/dL the mean that [28.7 * A1C - 46.7] gives for
    the returned estimate is within 0.1436 mg/dL of the mean the estimate
    was computed from. *)
Theorem est_a1c_from_eag_inverse :
  forall eag : Q,
    (0 <= eag <= 1000)%Q ->
    exists est : Q,
      est_a1c_from_eag (Fin eag) = Fin est /\
      (Qabs (28.7 * est - 46.7 - eag) <= 1436 # 10000)%Q.
Proof.
  intros eag H.
  destruct (est_a1c_hundredths eag H) as (k & E & Hk & B).
  eexists. split; [exact E|].
  assert (P : (Qabs (rn (inject_Z k / 100) - inject_Z k / 100)
               <= 1 # 8796093022208)%Q).
  { apply rn_error_small.
    assert (A : (0 <= inject_Z k)%Q)
      by (change 0%Q with (inject_Z 0); rewrite <- Zle_Qle; lia).
    assert (C : (inject_Z k <= 4000)%Q)
      by (change 4000%Q with (inject_Z 4000); rewrite <- Zle_Qle; lia).
    apply Qabs_Qle_condition. unfold Qdiv.
    change (/ 100)%Q with (1 # 100)%Q. split; lra. }
  set (p := rn (inject_Z k / 100)) in *.
  apply Qabs_Qle_condition in P, B. apply Qabs_Qle_condition.
  unfold Qdiv in P, B. change (/ 100)%Q with (1 # 100)%Q in P, B.
  change (/ 28.7)%Q with (10 # 287)%Q in B.
  split; lra.
Qed.

Lemma est_a1c_from_eag_inverse_witness :
  exists est : Q,
    est_a1c_from_eag (Fin 215.1875) = Fin est /\
    (Qabs (28.7 * est - 46.7 - 215.1875) <= 1436 # 10000)%Q /\
    ~ (Qabs (28.7 * est - 46.7 - 215.1875) <= 1435 # 10000)%Q.
Proof.
  destruct (est_a1c_from_eag_inverse 215.1875%Q) as (est & E & B);
    [split; discriminate|].
  exists est. split; [exact E|]. split; [exact B|].
  vm_compute in E. injection E as <-.
  intros H. vm_compute in H. apply H. reflexivity.
Defined.

(** ** Rounding to the nearest double is monotone *)

Lemma round_half_even_proper (x y : Q) :
  (x == y)%Q -> round_half_even x = round_half_even y.
Proof.
  intros E. apply Z.le_antisymm; apply round_half_even_mono; lra.
Qed.

Lemma pow2_Z (n : Z) : 0 <= n -> (inject_Z (2 ^ n) == (2 # 1) ^ n)%Q.
Proof. intros H. apply (Zpower_Qpower 2 n H). Qed.

Lemma pow2_Q (n : Z) : 0 <= n -> ((2 # 1) ^ n == inject_Z (2 ^ n))%Q.
Proof. intros H. symmetry. apply pow2_Z, H. Qed.

Lemma ilog2_proper (x y : Q) : (x == y)%Q -> ilog2 x = ilog2 y.
Proof.
  intros E. unfold ilog2.
  assert (B : Qle_bool 1 x = Qle_bool 1 y).
  { destruct (Qle_bool 1 x) eqn:Bx, (Qle_bool 1 y) eqn:By;
      try reflexivity.
    - apply Qle_bool_iff in Bx. rewrite E in Bx. apply Qle_bool_iff in Bx.
      congruence.
    - apply Qle_bool_iff in By. rewrite <- E in By.
      apply Qle_bool_iff in By. congruence. }
  rewrite B, (Qfloor_comp x y E).
  rewrite (Qceiling_comp (/ x) (/ y)) by (rewrite E; reflexivity).
  reflexivity.
Qed.

(** [ilog2 q] is the exponent of the power of two at or below [q]. *)
Lemma ilog2_spec (q : Q) :
  (0 < q)%Q ->
  ((2 # 1) ^ ilog2 q <= q)%Q /\ (q < (2 # 1) ^ (ilog2 q + 1))%Q.
Proof.
  intros Hq. unfold ilog2. destruct (Qle_bool 1 q) eqn:B.
  - apply Qle_bool_iff in B.
    pose proof (Qfloor_resp_le _ _ B) as F1.
    change 1%Q with (inject_Z 1) in F1. rewrite Qfloor_Z in F1.
    assert (F0 : 0 < Qfloor q) by lia.
    destruct (Z.log2_spec (Qfloor q) F0) as [L U].
    pose proof (Z.log2_nonneg (Qfloor q)) as N.
    rewrite Zle_Qle in L. rewrite Zlt_Qlt in U.
    rewrite pow2_Z in L by exact N.
    unfold Z.succ in U. rewrite pow2_Z in U by lia.
    pose proof (Qfloor_le q) as Q1. pose proof (Qlt_floor q) as Q2.
    assert (U' : (inject_Z (Qfloor q + 1)
                  <= (2 # 1) ^ (Z.log2 (Qfloor q) + 1))%Q).
    { rewrite <- pow2_Z by lia. rewrite <- Zle_Qle.
      destruct (Z.log2_spec (Qfloor q) F0) as [_ U0].
      unfold Z.succ in U0. lia. }
    split; lra.
  - assert (B' : (q < 1)%Q).
    { apply Qnot_le_lt. intros H. apply Qle_bool_iff in H. congruence. }
    assert (I0 : (0 < / q)%Q) by (apply Qinv_lt_0_compat; exact Hq).
    assert (I1 : (1 < / q)%Q).
    { apply Qlt_shift_inv_l; [exact Hq|]. lra. }
    pose proof (Qle_ceiling (/ q)) as C1.
    pose proof (Qceiling_lt (/ q)) as C2.
    set (c := Qceiling (/ q)) in *.
    assert (Hc : 1 < c).
    { rewrite Zlt_Qlt. change (inject_Z 1) with 1%Q. lra. }
    destruct (Z.log2_up_spec c Hc) as [L U].
    pose proof (Z.log2_up_pos c Hc) as N.
    set (l := Z.log2_up c) in *.
    assert (L' : 2 ^ Z.pred l <= c - 1) by lia.
    rewrite Zle_Qle in L', U.
    rewrite pow2_Z in L' by lia. rewrite pow2_Z in U by lia.
    assert (E : (q * / q == 1)%Q) by (field; lra).
    split.
    + rewrite Qpower_opp. apply Qle_shift_inv_r; [apply pow2_pos|].
      rewrite <- E. apply Qmult_le_l; [exact Hq|]. lra.
    + replace (- l + 1) with (- Z.pred l) by lia.
      rewrite Qpower_opp. apply Qlt_shift_inv_l; [apply pow2_pos|].
      rewrite <- E. apply Qmult_lt_l; [exact Hq|]. lra.
Qed.

Lemma ilog2_mono (x y : Q) :
  (0 < x)%Q -> (x <= y)%Q -> ilog2 x <= ilog2 y.
Proof.
  intros Hx Hxy.
  destruct (ilog2_spec x Hx) as [X1 _].
  destruct (ilog2_spec y) as [_ Y2]; [lra|].
  destruct (Z_le_gt_dec (ilog2 x) (ilog2 y)) as [H|H]; [exact H|].
  exfalso.
  assert (P : ((2 # 1) ^ (ilog2 y + 1) <= (2 # 1) ^ ilog2 x)%Q).
  { apply Qpower_le_compat_l; [lia|discriminate]. }
  lra.
Qed.

(** The exponent of the last place at a positive [q]. *)
Local Abbreviation lp q := (Z.max (-1074) (ilog2 q - 52))%Z.

Lemma rn_pos_form (q : Q) :
  (0 < q)%Q ->
  (rn q == inject_Z (round_half_even (q / (2 # 1) ^ lp q))
           * (2 # 1) ^ lp q)%Q.
Proof.
  intros Hq.
  assert (N : Qnum (Qred q) <> 0).
  { intros E. pose proof (Qred_num_zero q E). lra. }
  rewrite (rn_nonzero q N). unfold ulp_exponent.
  assert (E : (Qabs (Qred q) == q)%Q).
  { rewrite Qred_correct. apply Qabs_pos. lra. }
  rewrite (ilog2_proper _ _ E).
  rewrite (round_half_even_proper
             (Qred q / (2 # 1) ^ lp q) (q / (2 # 1) ^ lp q))
    by (rewrite Qred_correct; reflexivity).
  reflexivity.
Qed.

Lemma rn_nonneg (q : Q) : (0 <= q)%Q -> (0 <= rn q)%Q.
Proof.
  intros H. destruct (Qlt_le_dec 0 q) as [P|Z0].
  - rewrite (rn_pos_form q P).
    pose proof (pow2_pos (lp q)) as HP.
    apply Qmult_le_0_compat; [|lra].
    change 0%Q with (inject_Z 0). rewrite <- Zle_Qle.
    rewrite <- (round_half_even_Z 0). apply round_half_even_mono.
    change (inject_Z 0) with 0%Q.
    apply Qle_shift_div_l; [exact HP|]. lra.
  - rewrite (rn_proper q 0) by lra. rewrite rn_0. discriminate.
Qed.

(** Between two powers of two the double nearest to [q] is bracketed by
    them. *)
Lemma rn_pos_bracket (q : Q) :
  (0 < q)%Q ->
  (rn q <= (2 # 1) ^ (lp q + 53)%Z)%Q /\
  (-1074 < lp q -> ((2 # 1) ^ (lp q + 52)%Z <= rn q)%Q).
Proof.
  intros Hq. rewrite (rn_pos_form q Hq).
  destruct (ilog2_spec q Hq) as [L U].
  pose proof (pow2_pos (lp q)) as HP.
  set (e := lp q) in *.
  assert (Ne : ~ ((2 # 1) == 0)%Q) by discriminate.
  split.
  - assert (B : (q <= (2 # 1) ^ (e + 53))%Q).
    { assert (((2 # 1) ^ (ilog2 q + 1) <= (2 # 1) ^ (e + 53))%Q).
      { apply Qpower_le_compat_l; [unfold e; lia|discriminate]. }
      lra. }
    replace (e + 53) with (e + 53) by lia.
    rewrite Qpower_plus in B |- * by exact Ne.
    rewrite (Qmult_comm ((2 # 1) ^ e)) in B |- *.
    apply Qmult_le_compat_r; [|lra].
    rewrite (pow2_Q 53) by lia. rewrite <- Zle_Qle.
    rewrite <- (round_half_even_Z (2 ^ 53)).
    apply round_half_even_mono. rewrite pow2_Z by lia.
    apply Qle_shift_div_r; [exact HP|]. exact B.
  - intros He.
    assert (Ee : e = ilog2 q - 52) by (unfold e in *; lia).
    assert (B : ((2 # 1) ^ (e + 52) <= q)%Q).
    { replace (e + 52) with (ilog2 q) by lia. exact L. }
    replace (e + 52) with (e + 52) by lia.
    rewrite Qpower_plus in B |- * by exact Ne.
    rewrite (Qmult_comm ((2 # 1) ^ e)) in B |- *.
    apply Qmult_le_compat_r; [|lra].
    rewrite (pow2_Q 52) by lia. rewrite <- Zle_Qle.
    rewrite <- (round_half_even_Z (2 ^ 52)) at 1.
    apply round_half_even_mono. rewrite pow2_Z by lia.
    apply Qle_shift_div_l; [exact HP|]. exact B.
Qed.

Lemma rn_mono_pos (x y : Q) :
  (0 < x)%Q -> (x <= y)%Q -> (rn x <= rn y)%Q.
Proof.
  intros Hx Hxy.
  assert (Hy : (0 < y)%Q) by lra.
  pose proof (ilog2_mono x y Hx Hxy) as Hl.
  destruct (Z.eq_dec (lp x) (lp y)) as [E|N].
  - rewrite (rn_pos_form x Hx), (rn_pos_form y Hy). rewrite E.
    pose proof (pow2_pos (lp y)) as HP.
    apply Qmult_le_compat_r; [|lra].
    rewrite <- Zle_Qle. apply round_half_even_mono.
    unfold Qdiv. apply Qmult_le_compat_r; [exact Hxy|].
    apply Qinv_le_0_compat. lra.
  - destruct (rn_pos_bracket x Hx) as [X _].
    destruct (rn_pos_bracket y Hy) as [_ Y].
    assert (P : ((2 # 1) ^ (lp x + 53) <= (2 # 1) ^ (lp y + 52))%Q).
    { apply Qpower_le_compat_l; [lia|discriminate]. }
    assert (Y' : ((2 # 1) ^ (lp y + 52) <= rn y)%Q) by (apply Y; lia).
    lra.
Qed.

(** Rounding to the nearest double keeps the order of non-negative
    numbers. *)
Lemma rn_mono (x y : Q) : (0 <= x)%Q -> (x <= y)%Q -> (rn x <= rn y)%Q.
Proof.
  intros Hx Hxy. destruct (Qlt_le_dec 0 x) as [P|Z0].
  - apply rn_mono_pos; assumption.
  - rewrite (rn_proper x 0) by lra. rewrite rn_0. apply rn_nonneg. lra.
Qed.


Lemma est_a1c_mono (x y : Q) :
  (0 <= x)%Q -> (x <= y)%Q ->
  exists ex ey : Q,
    est_a1c_from_eag (Fin x) = Fin ex /\
    est_a1c_from_eag (Fin y) = Fin ey /\
    (ex <= ey)%Q.
Proof.
  intros Hx Hxy.
  unfold est_a1c_from_eag, lit, add, div, round.
  let v := eval vm_compute in (rn 46.7) in
  assert (E1 : rn 46.7 = v) by (vm_compute; reflexivity).
  let v := eval vm_compute in (rn 28.7) in
  assert (E2 : rn 28.7 = v) by (vm_compute; reflexivity).
  rewrite E1, E2. clear E1 E2.
  match goal with
  | |- context [Qeq_bool ?c 0] =>
      change (Qeq_bool c 0) with false; cbv iota
  end.
  change (inject_Z (10 ^ Z.of_nat 2)) with 100%Q.
  do 2 eexists. split; [reflexivity|]. split; [reflexivity|].
  match goal with
  | |- context [rn (x + ?c)] => set (c1 := c)
  end.
  match goal with
  | |- context [(rn (x + c1) / ?c)%Q] => set (c2 := c)
  end.
  assert (C1 : (0 <= c1)%Q) by discriminate.
  assert (C2 : (0 <= / c2)%Q) by discriminate.
  assert (S0 : (0 <= rn (x + c1))%Q) by (apply rn_nonneg; lra).
  assert (S1 : (rn (x + c1) <= rn (y + c1))%Q) by (apply rn_mono; lra).
  assert (Q0 : (0 <= rn (x + c1) / c2)%Q).
  { unfold Qdiv. apply Qmult_le_0_compat; assumption. }
  assert (Q1 : (rn (x + c1) / c2 <= rn (y + c1) / c2)%Q).
  { unfold Qdiv. apply Qmult_le_compat_r; assumption. }
  assert (D0 : (0 <= rn (rn (x + c1) / c2))%Q) by (apply rn_nonneg, Q0).
  assert (D1 : (rn (rn (x + c1) / c2) <= rn (rn (y + c1) / c2))%Q)
    by (apply rn_mono; assumption).
  set (dx := rn (rn (x + c1) / c2)) in *.
  set (dy := rn (rn (y + c1) / c2)) in *.
  assert (K0 : 0 <= round_half_even (dx * 100)).
  { rewrite <- (round_half_even_Z 0). apply round_half_even_mono.
    change (inject_Z 0) with 0%Q. lra. }
  assert (K1 : round_half_even (dx * 100) <= round_half_even (dy * 100)).
  { apply round_half_even_mono. lra. }
  rewrite Zle_Qle in K0, K1. change (inject_Z 0) with 0%Q in K0.
  apply rn_mono; unfold Qdiv; change (/ 100)%Q with (1 # 100)%Q; lra.
Qed.

(** The estimate never decreases when the mean increases. *)
Theorem est_a1c_from_eag_monotone :
  forall eag1 eag2 : Q,
    (0 <= eag1)%Q ->
    (eag1 <= eag2)%Q ->
    exists est1 est2 : Q,
      est_a1c_from_eag (Fin eag1) = Fin est1 /\
      est_a1c_from_eag (Fin eag2) = Fin est2 /\
      (est1 <= est2)%Q.
Proof.
  intros eag1 eag2 H0 H.
  apply est_a1c_mono; assumption.
Qed.

Lemma est_a1c_from_eag_monotone_witness :
  exists est1 est2 : Q,
    est_a1c_from_eag (Fin 154) = Fin est1 /\
    est_a1c_from_eag (Fin 160) = Fin est2 /\
    (est1 <= est2)%Q.
Proof.
  apply est_a1c_from_eag_monotone; discriminate.
Defined.


